(** * podstr: OP3 prefix utilities, MIME correction and OP3 analytics

    A shallow embedding of three pieces of the podstr front end:

    - [ensureCorrectMimeType] and [MIME_TYPE_MAP] (hooks/useUploadFile.ts),
    - [addOP3Prefix], [removeOP3Prefix], [hasOP3Prefix] (the OP3 utilities),
    - the body of the query function of [useOP3Analytics]
      (hooks/useOP3Analytics.ts), from the download request onward.

    JavaScript strings are modelled by [string]; a character stands for one
    code unit (the model covers code units below 256).  JavaScript [Map]s
    and [Set]s iterate in insertion order, so they are modelled by
    association lists and duplicate-free lists that keep that order.  A plain
    object used as a dictionary (the chart data point, the MIME table) is a
    finite map from the names of its own properties to their values; an
    assignment [o[k] = v] goes through [JSObject.setProperty], which knows the
    one property name that a plain object inherits with a setter.
    JavaScript numbers that hold counts are natural numbers; the one
    number that is not an integer, the percentage of a category entry, is
    a binary64 float. *)

From Stdlib Require Import Uint63 PrimFloat.
From Stdlib Require Import ZArith QArith Lia Ascii String.
From Stdlib Require Import OrderedTypeEx.
From stdpp Require Import base option list sorting gmap strings.

#[local] Open Scope nat_scope.

(* ====================================================================== *)
(** ** JavaScript string primitives *)
(* ====================================================================== *)

Module JS.

(** Truthiness of a string: every string but the empty one. *)
Definition truthy (s : string) : bool :=
  match s with
  | EmptyString => false
  | String _ _ => true
  end.

(** Truthiness of an optional string property ([undefined] is falsy). *)
Definition truthyOpt (o : option string) : bool :=
  match o with
  | Some s => truthy s
  | None => false
  end.

(** [s.startsWith(p)]. *)
Fixpoint startsWith (s p : string) {struct p} : bool :=
  match p with
  | EmptyString => true
  | String c p' =>
      match s with
      | EmptyString => false
      | String d s' => if Ascii.eqb c d then startsWith s' p' else false
      end
  end.

(** [s.substring(n)]: the string without its first [n] code units. *)
Fixpoint substring (n : nat) (s : string) : string :=
  match n, s with
  | O, _ => s
  | S _, EmptyString => EmptyString
  | S n', String _ s' => substring n' s'
  end.

(** Lower-casing of one code unit below 256: the Latin capitals A-Z and
    the Latin-1 capitals U+00C0..U+00DE (U+00D7, the multiplication sign,
    excepted) move up by 32. *)
Definition lowerChar (c : ascii) : ascii :=
  let n := N_of_ascii c in
  if ((65 <=? n) && (n <=? 90))%N then ascii_of_N (n + 32)
  else if ((192 <=? n) && (n <=? 222) && negb (n =? 215))%N
       then ascii_of_N (n + 32)
  else c.

(** [s.toLowerCase()]. *)
Fixpoint toLowerCase (s : string) : string :=
  match s with
  | EmptyString => EmptyString
  | String c s' => String (lowerChar c) (toLowerCase s')
  end.

(** [true] when no code unit of [s] is [c]. *)
Fixpoint lacks (c : ascii) (s : string) : bool :=
  match s with
  | EmptyString => true
  | String d s' => negb (Ascii.eqb c d) && lacks c s'
  end.

(** [s.split(c)[0]]: the part of [s] before the first [c], all of [s]
    when [c] does not occur. *)
Fixpoint splitHead (c : ascii) (s : string) : string :=
  match s with
  | EmptyString => EmptyString
  | String d s' => if Ascii.eqb c d then EmptyString
                   else String d (splitHead c s')
  end.

(** The comparison the default [Array.prototype.sort] uses on strings:
    lexicographic on code units. *)
Definition compareStrings (a b : string) : Z :=
  match String.compare a b with
  | Lt => (-1)%Z
  | Eq => 0%Z
  | Gt => 1%Z
  end.

End JS.

(* ====================================================================== *)
(** ** OP3 prefix utilities *)
(* ====================================================================== *)

Module OP3.

Definition OP3_PREFIX : string := "https://op3.dev/e/".

(** [url.replace(/^https?:\/\//, '')]: one leading [http://] or
    [https://] is removed. *)
Definition stripProtocol (url : string) : string :=
  if JS.startsWith url "https://" then JS.substring 8 url
  else if JS.startsWith url "http://" then JS.substring 7 url
  else url.

Definition addOP3Prefix (url : string) : string :=
  if negb (JS.truthy url) then url
  else if JS.startsWith url OP3_PREFIX then url
  else OP3_PREFIX +:+ stripProtocol url.

Definition removeOP3Prefix (url : string) : string :=
  if negb (JS.truthy url) then url
  else if JS.startsWith url OP3_PREFIX
       then "https://" +:+ JS.substring (String.length OP3_PREFIX) url
  else url.

Definition hasOP3Prefix (url : string) : bool :=
  JS.startsWith url OP3_PREFIX.

End OP3.

(* ====================================================================== *)
(** ** MIME type correction *)
(* ====================================================================== *)

Module Mime.

(** A [File], by its attributes: the name, the modification time in
    milliseconds and the relative path of the [File] interface, the MIME
    type and the bytes of the [Blob] interface (its [size] is the number of
    bytes). *)
Record File : Type := mkFile {
  name : string;
  type : string;
  bytes : list Byte.byte;
  lastModified : Z;
  webkitRelativePath : string
}.

Definition MIME_TYPE_MAP : gmap string string :=
  list_to_map [
    (".mp3", "audio/mpeg"); (".m4a", "audio/mp4"); (".aac", "audio/aac");
    (".ogg", "audio/ogg"); (".oga", "audio/ogg"); (".wav", "audio/wav");
    (".flac", "audio/flac"); (".opus", "audio/opus");
    (".webm", "audio/webm");
    (".mp4", "video/mp4"); (".m4v", "video/mp4");
    (".mov", "video/quicktime"); (".avi", "video/x-msvideo");
    (".mkv", "video/x-matroska");
    (".jpg", "image/jpeg"); (".jpeg", "image/jpeg"); (".png", "image/png");
    (".gif", "image/gif"); (".webp", "image/webp");
    (".svg", "image/svg+xml");
    (".json", "application/json"); (".srt", "text/srt");
    (".vtt", "text/vtt") ].

(** [s.match(/\.[^.]+$/)?.[0]]: the leftmost dot that is followed, up to
    the end of the string, by at least one code unit and no further dot. *)
Fixpoint matchExtension (s : string) : option string :=
  match s with
  | EmptyString => None
  | String c s' =>
      if Ascii.eqb c "."%char && JS.truthy s' && JS.lacks "."%char s'
      then Some s
      else matchExtension s'
  end.

(** The type a [File] constructor stores: lower-cased when every code unit
    is printable ASCII (U+0020..U+007E), empty otherwise. *)
Definition printable (c : ascii) : bool :=
  let n := N_of_ascii c in ((32 <=? n) && (n <=? 126))%N.

Fixpoint allPrintable (s : string) : bool :=
  match s with
  | EmptyString => true
  | String c s' => printable c && allPrintable s'
  end.

Definition normalizeType (t : string) : string :=
  if allPrintable t then JS.toLowerCase t else EmptyString.

(** [new File([file], name, { type })], constructed when the clock reads
    [now]: the bytes are those of [file]; no [lastModified] option is
    given, so the new file is dated [now]; a constructed file has an empty
    relative path. *)
Definition newFile (now : Z) (file : File) (nm ty : string) : File :=
  {| name := nm; type := normalizeType ty; bytes := bytes file;
     lastModified := now; webkitRelativePath := EmptyString |}.

(** [now] is the reading of the clock at the call. *)
Definition ensureCorrectMimeType (now : Z) (file : File) : File :=
  if JS.truthy (type file)
     && negb (String.eqb (type file) "application/octet-stream")
  then file
  else
    match matchExtension (JS.toLowerCase (name file)) with
    | None => file
    | Some ext =>
        if negb (JS.truthy ext) then file
        else
          match MIME_TYPE_MAP !! ext with
          | None => file
          | Some correctType =>
              if negb (JS.truthy correctType) then file
              else newFile now file (name file) correctType
          end
    end.

(** The one situation in which the type is corrected: the file's type is
    empty or the generic one, and the lower-cased name ends in an extension
    that the table knows. *)
Definition correctable (file : File) : Prop :=
  (type file = EmptyString \/ type file = "application/octet-stream") /\
  exists ext, matchExtension (JS.toLowerCase (name file)) = Some ext /\
              is_Some (MIME_TYPE_MAP !! ext).

End Mime.


(* ====================================================================== *)
(** ** JavaScript collections *)
(* ====================================================================== *)

(** [Map<string, V>]: entries in insertion order; [set] on a present key
    replaces the value in place, on a new key it appends the entry. *)
Module JSMap.
Section Ops.
Context {V : Type}.

Fixpoint get (k : string) (m : list (string * V)) : option V :=
  match m with
  | [] => None
  | (k', v) :: m' => if String.eqb k k' then Some v else get k m'
  end.

Definition has (k : string) (m : list (string * V)) : bool :=
  match get k m with
  | Some _ => true
  | None => false
  end.

Fixpoint set (k : string) (v : V) (m : list (string * V))
  : list (string * V) :=
  match m with
  | [] => [(k, v)]
  | (k', v') :: m' =>
      if String.eqb k k' then (k, v) :: m' else (k', v') :: set k v m'
  end.

Definition keys (m : list (string * V)) : list string := fst <$> m.
End Ops.
End JSMap.

(** [Set<A>]: members in insertion order, each once. *)
Module JSSet.
Section Ops.
Context {A : Type} `{EqDecision A}.

Definition add (x : A) (s : list A) : list A :=
  if decide (x ∈ s) then s else s ++ [x].

Definition ofArray (l : list A) : list A :=
  fold_left (fun s x => add x s) l [].

Definition size (s : list A) : nat := length s.
End Ops.
End JSSet.

(** [Array.prototype.sort(compareFn)].  The sort is stable; for a
    consistent [compareFn] its result is the one that a stable insertion
    sort computes: an element is placed in front of the first element it
    does not have to follow. *)
Module JSArray.
Section Sort.
Context {A : Type} (compareFn : A -> A -> Z).

Fixpoint insert (x : A) (l : list A) : list A :=
  match l with
  | [] => [x]
  | y :: l' =>
      if (compareFn x y <=? 0)%Z then x :: y :: l'
      else y :: insert x l'
  end.

Fixpoint sort (l : list A) : list A :=
  match l with
  | [] => []
  | x :: l' => insert x (sort l')
  end.
End Sort.

(** [l.slice(0, n)]. *)
Definition slice0 {A : Type} (n : nat) (l : list A) : list A := take n l.
End JSArray.

(** A plain object whose values are strings and numbers, by its own
    properties.  The assignment [o[k] = v] writes the own property [k],
    except under the name [__proto__]: a plain object inherits that name
    as an accessor, the assignment calls its setter, and the setter ignores
    a value that is neither an object nor [null], so that nothing is
    written. *)
Module JSObject.
Section Ops.
Context {V : Type}.

Definition setProperty (k : string) (v : V) (o : gmap string V)
  : gmap string V :=
  if String.eqb k "__proto__" then o else <[ k := v ]> o.
End Ops.
End JSObject.

(* ====================================================================== *)
(** ** OP3 analytics *)
(* ====================================================================== *)

Module Analytics.

Inductive TimeRange : Type := Range7d | Range30d | Range90d | RangeMonth.

Module Episode.
Record t : Type := mk { id : string; title : option string }.
End Episode.

Record DownloadRow : Type := mkRow {
  time : string;
  url : string;
  agentName : option string;
  deviceType : option string;
  deviceName : option string;
  countryCode : option string;
  episodeId : option string;
  hashedIpAddress : option string
}.

(** The accumulator kept per episode in [episodeMap]. *)
Module Stats.
Record t : Type := mk { downloads : nat; uniqueIps : list string }.
End Stats.

Module EpisodeStat.
Record t : Type := mk {
  episodeId : string;
  url : string;
  downloads : nat;
  uniqueListeners : nat
}.
End EpisodeStat.

(** An entry of [topCountries], [topApps] or [topDevices]; [key] is the
    source's [countryCode], [appName] or [deviceType] field.  [count] is
    an integer; [percentage] is a binary64 number. *)
Module CategoryStat.
Record t : Type := mk { key : string; count : nat; percentage : float }.
End CategoryStat.

(** A value of [Record<string, string | number>]. *)
Inductive Value : Type :=
| Str (s : string)
| Num (n : nat).

Record OP3Analytics : Type := mkAnalytics {
  totalDownloads : nat;
  uniqueAudience : nat;
  downloads7Days : nat;
  downloads30Days : nat;
  episodeStats : list EpisodeStat.t;
  topCountries : list CategoryStat.t;
  topApps : list CategoryStat.t;
  topDevices : list CategoryStat.t;
  downloadsOverTime : list (gmap string Value)
}.

(** The answer of the downloads endpoint: a failure status, or a body whose
    [rows] property may be missing. *)
Inductive DownloadsResponse : Type :=
| NotOk
| Ok (rows : option (list DownloadRow)).

(** The readings of the clock, by call site: the one or two that date the
    request, then [Date.now()] in [now7d] and [Date.now()] in [now30d]. *)
Record Clock : Type := mkClock {
  atStart : Z;
  atEnd : Z;
  at7d : Z;
  at30d : Z
}.

Definition emptyAnalytics : OP3Analytics :=
  {| totalDownloads := 0; uniqueAudience := 0;
     downloads7Days := 0; downloads30Days := 0;
     episodeStats := []; topCountries := []; topApps := [];
     topDevices := []; downloadsOverTime := [] |}.

(** [daysMap], which the code reads for the rolling ranges only. *)
Definition daysMap (timeRange : TimeRange) : Z :=
  match timeRange with
  | Range7d => 7
  | Range30d => 30
  | Range90d => 90
  | RangeMonth => 0
  end.

Definition dayMs : Z := 24 * 60 * 60 * 1000.

(** [row.episodeId || row.url] *)
Definition itemId (row : DownloadRow) : string :=
  match episodeId row with
  | Some e => if JS.truthy e then e else url row
  | None => url row
  end.

(** [row.time.split('T')[0]] *)
Definition rowDate (row : DownloadRow) : string :=
  JS.splitHead "T"%char (time row).

(** The grouping key of a row for an optional property: the property
    when it is truthy. *)
Definition groupKey (prop : DownloadRow -> option string)
    (row : DownloadRow) : option string :=
  match prop row with
  | Some k => if JS.truthy k then Some k else None
  | None => None
  end.

(** [episodeTitleMap] *)
Definition episodeTitleMap (episodes : list Episode.t)
  : list (string * string) :=
  fold_left
    (fun m ep =>
       match Episode.title ep with
       | Some t => if JS.truthy t then JSMap.set (Episode.id ep) t m else m
       | None => m
       end)
    episodes [].

(** [episodeMap] *)
Definition episodeStep (m : list (string * Stats.t)) (row : DownloadRow)
  : list (string * Stats.t) :=
  let id := itemId row in
  let m1 := if JSMap.has id m then m
            else JSMap.set id (Stats.mk 0 []) m in
  match JSMap.get id m1 with
  | None => m1
  | Some stats =>
      let n := Stats.downloads stats + 1 in
      let ips :=
        match hashedIpAddress row with
        | Some h => if JS.truthy h then JSSet.add h (Stats.uniqueIps stats)
                    else Stats.uniqueIps stats
        | None => Stats.uniqueIps stats
        end in
      JSMap.set id (Stats.mk n ips) m1
  end.

Definition episodeMap (allRows : list DownloadRow)
  : list (string * Stats.t) :=
  fold_left episodeStep allRows [].

Definition byDownloads (a b : EpisodeStat.t) : Z :=
  Z.of_nat (EpisodeStat.downloads b) - Z.of_nat (EpisodeStat.downloads a).

Definition episodeEntry (titles : list (string * string))
    (e : string * Stats.t) : EpisodeStat.t :=
  let id := e.1 in
  EpisodeStat.mk id
    (match JSMap.get id titles with
     | Some t => if JS.truthy t then t else id
     | None => id
     end)
    (Stats.downloads e.2)
    (JSSet.size (Stats.uniqueIps e.2)).

(** [appMap], [countryMap], [deviceMap]: one pass that counts the rows of
    each truthy value of the property. *)
Definition countStep (prop : DownloadRow -> option string)
    (m : list (string * nat)) (row : DownloadRow) : list (string * nat) :=
  match prop row with
  | Some k =>
      if JS.truthy k then JSMap.set k (default 0 (JSMap.get k m) + 1) m
      else m
  | None => m
  end.

Definition countMap (prop : DownloadRow -> option string)
    (allRows : list DownloadRow) : list (string * nat) :=
  fold_left (countStep prop) allRows [].

(** A count as a JavaScript number.  Counts are lengths of arrays and
    tallies of their rows, below 2^32, which binary64 holds exactly. *)
Definition toNumber (n : nat) : float :=
  PrimFloat.of_uint63 (Uint63.of_Z (Z.of_nat n)).

(** [(count / totalDownloads) * 100], in binary64: the quotient is rounded,
    then the product is. *)
Definition percentageOf (count totalDownloads : nat) : float :=
  PrimFloat.mul (PrimFloat.div (toNumber count) (toNumber totalDownloads))
    100%float.

Definition categoryEntry (totalDownloads : nat) (e : string * nat)
  : CategoryStat.t :=
  CategoryStat.mk e.1 e.2 (percentageOf e.2 totalDownloads).

Definition byCount (a b : CategoryStat.t) : Z :=
  Z.of_nat (CategoryStat.count b) - Z.of_nat (CategoryStat.count a).

(** [Array.from(map.entries()).map(...).sort(...)] for a category map. *)
Definition ranked (prop : DownloadRow -> option string)
    (allRows : list DownloadRow) : list CategoryStat.t :=
  JSArray.sort byCount
    (categoryEntry (length allRows) <$> countMap prop allRows).

(** [episodeDailyMap]: date -> episode -> downloads.  The inner map is
    updated in place, so the date keeps its position in the outer map. *)
Definition dailyStep (m : list (string * list (string * nat)))
    (row : DownloadRow) : list (string * list (string * nat)) :=
  let date := rowDate row in
  let id := itemId row in
  let m1 := if JSMap.has date m then m else JSMap.set date [] m in
  match JSMap.get date m1 with
  | None => m1
  | Some dayMap =>
      JSMap.set date
        (JSMap.set id (default 0 (JSMap.get id dayMap) + 1) dayMap) m1
  end.

Definition episodeDailyMap (allRows : list DownloadRow)
  : list (string * list (string * nat)) :=
  fold_left dailyStep allRows [].

Definition allDates (allRows : list DownloadRow) : list string :=
  JSArray.sort JS.compareStrings (JSMap.keys (episodeDailyMap allRows)).

Definition allEpisodeIds (allRows : list DownloadRow) : list string :=
  fold_left
    (fun s day => fold_left (fun s' e => JSSet.add e.1 s') day.2 s)
    (episodeDailyMap allRows) [].

(** [episodeCumulativeMap], every episode at 0. *)
Definition initialCumulative (ids : list string) : list (string * nat) :=
  fold_left (fun m id => JSMap.set id 0 m) ids [].

(** The updates of [episodeCumulativeMap] for one date. *)
Definition addDay (dayData cumulative : list (string * nat))
  : list (string * nat) :=
  fold_left
    (fun c e => JSMap.set e.1 (default 0 (JSMap.get e.1 c) + e.2) c)
    dayData cumulative.

(** The data point of one date: [{ date }], then one assignment
    [dataPoint[episodeId] = cumulative] per entry of
    [episodeCumulativeMap]. *)
Definition dataPoint (date : string) (cumulative : list (string * nat))
  : gmap string Value :=
  fold_left (fun o e => JSObject.setProperty e.1 (Num e.2) o) cumulative
    {[ "date" := Str date ]}.

(** The callback of [allDates.map], threading [episodeCumulativeMap].
    [episodeDailyMap.get(date)!] reads a date that is a key of the map
    (lemma [allDates_present] below), so the default is never used. *)
Fixpoint buildPoints (daily : list (string * list (string * nat)))
    (cumulative : list (string * nat)) (dates : list string)
  : list (gmap string Value) :=
  match dates with
  | [] => []
  | date :: dates' =>
      let dayData := default [] (JSMap.get date daily) in
      let cumulative' := addDay dayData cumulative in
      dataPoint date cumulative' :: buildPoints daily cumulative' dates'
  end.

Definition timeSeries (allRows : list DownloadRow)
  : list (gmap string Value) :=
  buildPoints (episodeDailyMap allRows)
    (initialCumulative (allEpisodeIds allRows)) (allDates allRows).

Section Query.
(** The host's date library: [new Date(s).getTime()] ([None] for NaN),
    [d.toISOString()], and the first instant of the local calendar month
    of an instant. *)
Variable getTime : string -> option Z.
Variable toISOString : Z -> string.
Variable startOfMonth : Z -> Z.
(** The downloads endpoint, by the [start] and [end] dates of the URL. *)
Variable fetchDownloads : string -> string -> DownloadsResponse.

(** [new Date(r.time).getTime() >= bound] *)
Definition since (bound : Z) (r : DownloadRow) : bool :=
  match getTime (time r) with
  | Some t => (bound <=? t)%Z
  | None => false
  end.

(** The aggregation of the rows of a successful response. *)
Definition aggregate (clock : Clock) (titles : list (string * string))
    (allRows : list DownloadRow) : OP3Analytics :=
  let totalDownloads := length allRows in
  let now7d := (at7d clock - 7 * 24 * 60 * 60 * 1000)%Z in
  let now30d := (at30d clock - 30 * 24 * 60 * 60 * 1000)%Z in
  let rows7Days := List.filter (since now7d) allRows in
  let rows30Days := List.filter (since now30d) allRows in
  let uniqueIpHashes :=
    JSSet.ofArray
      (List.filter JS.truthyOpt (hashedIpAddress <$> allRows)) in
  {| totalDownloads := totalDownloads;
     uniqueAudience := JSSet.size uniqueIpHashes;
     downloads7Days := length rows7Days;
     downloads30Days := length rows30Days;
     episodeStats :=
       JSArray.sort byDownloads
         (episodeEntry titles <$> episodeMap allRows);
     topCountries := JSArray.slice0 10 (ranked countryCode allRows);
     topApps := JSArray.slice0 10 (ranked agentName allRows);
     topDevices := ranked deviceType allRows;
     downloadsOverTime := timeSeries allRows |}.

(** The [start] and [end] dates of the downloads URL. *)
Definition requestDates (timeRange : TimeRange) (clock : Clock)
  : string * string :=
  match timeRange with
  | RangeMonth =>
      (JS.splitHead "T"%char (toISOString (startOfMonth (atStart clock))),
       JS.splitHead "T"%char (toISOString (atStart clock)))
  | _ =>
      (JS.splitHead "T"%char
         (toISOString
            (atStart clock - daysMap timeRange * 24 * 60 * 60 * 1000)%Z),
       JS.splitHead "T"%char (toISOString (atEnd clock)))
  end.

(** The query function of [useOP3Analytics], once the show has been
    fetched: request the rows of the selected range, then aggregate. *)
Definition useOP3Analytics (timeRange : TimeRange) (clock : Clock)
    (episodes : list Episode.t) : OP3Analytics :=
  let '(startDate, endDate) := requestDates timeRange clock in
  match fetchDownloads startDate endDate with
  | NotOk => emptyAnalytics
  | Ok rows =>
      aggregate clock (episodeTitleMap episodes) (default [] rows)
  end.
End Query.

(** *** Vocabulary of the statements *)

(** [a] stands at an earlier position of [l] than [b]. *)
Definition before {A : Type} (a b : A) (l : list A) : Prop :=
  exists i j, i < j /\ l !! i = Some a /\ l !! j = Some b.

(** The position of the first row whose key is [k]. *)
Fixpoint firstIndex (keyOf : DownloadRow -> option string) (k : string)
    (rows : list DownloadRow) : option nat :=
  match rows with
  | [] => None
  | r :: rows' =>
      if decide (keyOf r = Some k) then Some 0
      else S <$> firstIndex keyOf k rows'
  end.

(** [ks] lists, once each and in the order of their first rows, the keys
    that occur in [rows]. *)
Definition keysInRowOrder (keyOf : DownloadRow -> option string)
    (rows : list DownloadRow) (ks : list string) : Prop :=
  NoDup ks /\
  (forall k, k ∈ ks <-> is_Some (firstIndex keyOf k rows)) /\
  (forall k k', before k k' ks ->
     exists p q, firstIndex keyOf k rows = Some p /\
                 firstIndex keyOf k' rows = Some q /\ p < q).

(** The number of rows whose key is [k]. *)
Definition occurrences (keyOf : DownloadRow -> option string) (k : string)
    (rows : list DownloadRow) : nat :=
  length (List.filter (fun r => bool_decide (keyOf r = Some k)) rows).

(** The comparison [(a, b) => cnt(b) - cnt(a)]. *)
Definition descendingBy {E : Type} (cnt : E -> nat) (a b : E) : Z :=
  Z.of_nat (cnt b) - Z.of_nat (cnt a).

(** A ranking [l]: counts never increase along the list, and of two
    entries with the same count the one whose key has the earlier first
    row comes first. *)
Definition rankedInRowOrder {E : Type} (keyE : E -> string) (cnt : E -> nat)
    (keyOf : DownloadRow -> option string) (rows : list DownloadRow)
    (l : list E) : Prop :=
  forall a b, before a b l ->
    cnt b <= cnt a /\
    (cnt a = cnt b ->
     exists p q, firstIndex keyOf (keyE a) rows = Some p /\
                 firstIndex keyOf (keyE b) rows = Some q /\ p < q).

(** [ks] lists, once each, the keys that occur in [rows]. *)
Definition distinctKeys (keyOf : DownloadRow -> option string)
    (rows : list DownloadRow) (ks : list string) : Prop :=
  NoDup ks /\ forall k, k ∈ ks <-> 0 < occurrences keyOf k rows.


(** The sum of the [percentage] fields as JavaScript adds them up, from
    the left and in binary64. *)
Definition sumPercentages (l : list CategoryStat.t) : float :=
  fold_left (fun s e => PrimFloat.add s (CategoryStat.percentage e)) l
    0%float.

(** The real number [count / total * 100], which [percentageOf] computes
    with two roundings. *)
Definition exactShare (count total : nat) : Q :=
  (inject_Z (Z.of_nat count) / inject_Z (Z.of_nat total)) * 100.

(** The sum of the exact shares of the counts of the entries of [l]. *)
Definition sumShares (total : nat) (l : list CategoryStat.t) : Q :=
  fold_right (fun e q => (exactShare (CategoryStat.count e) total + q)%Q)
    0%Q l.


(** A row lies in the rolling window of [days] days at the instant [now]
    when its time is a valid instant not earlier than [now] minus [days]
    days. The window has no upper bound. *)
Definition inRollingWindow (getTime : string -> option Z) (now days : Z)
    (r : DownloadRow) : Prop :=
  match getTime (time r) with
  | Some t => (now - days * dayMs <= t)%Z
  | None => False
  end.

#[global] Instance inRollingWindow_dec getTime now days r :
  Decision (inRollingWindow getTime now days r).
Proof. unfold inRollingWindow. destruct (getTime (time r)); apply _. Defined.


(** [episodeCumulativeMap] once the callback of [allDates.map] has run
    for the dates [dates], in that order. *)
Definition cumulativeAfter (daily : list (string * list (string * nat)))
    (cumulative : list (string * nat)) (dates : list string)
  : list (string * nat) :=
  fold_left (fun c date => addDay (default [] (JSMap.get date daily)) c)
    dates cumulative.

(** *** Sample data *)

Definition sampleRow (t : string) (ep country app : option string)
  : DownloadRow :=
  mkRow t "https://example.com/a.mp3" app None None country ep None.

(** A date library that reads the one format [YYYY-MM-DDTHH:MM:SSZ]. *)
Definition digit (c : ascii) : option Z :=
  let n := N_of_ascii c in
  if ((48 <=? n) && (n <=? 57))%N then Some (Z.of_N n - 48)%Z else None.

Definition number (cs : list ascii) : option Z :=
  fold_left
    (fun acc c =>
       match acc, digit c with
       | Some a, Some d => Some (10 * a + d)%Z
       | _, _ => None
       end)
    cs (Some 0%Z).

Definition daysFromCivil (y m d : Z) : Z :=
  let y' := (if m <=? 2 then y - 1 else y)%Z in
  let era := (y' / 400)%Z in
  let yoe := (y' - era * 400)%Z in
  let mp := (if 2 <? m then m - 3 else m + 9)%Z in
  let doy := ((153 * mp + 2) / 5 + d - 1)%Z in
  let doe := (yoe * 365 + yoe / 4 - yoe / 100 + doy)%Z in
  (era * 146097 + doe - 719468)%Z.

Definition sampleGetTime (s : string) : option Z :=
  match list_ascii_of_string s with
  | [y1; y2; y3; y4; a; m1; m2; b; d1; d2; t; h1; h2; c; n1; n2; e;
     s1; s2; z] =>
      if Ascii.eqb a "-" && Ascii.eqb b "-" && Ascii.eqb t "T"
         && Ascii.eqb c ":" && Ascii.eqb e ":" && Ascii.eqb z "Z"
      then
        match number [y1; y2; y3; y4], number [m1; m2], number [d1; d2],
              number [h1; h2], number [n1; n2], number [s1; s2] with
        | Some y, Some m, Some d, Some h, Some n, Some sec =>
            if ((1 <=? m) && (m <=? 12) && (1 <=? d) && (d <=? 31)
                && (h <=? 23) && (n <=? 59) && (sec <=? 59))%Z
            then Some ((daysFromCivil y m d * 86400
                        + h * 3600 + n * 60 + sec) * 1000)%Z
            else None
        | _, _, _, _, _, _ => None
        end
      else None
  | _ => None
  end.

(** 2024-03-15T12:00:00Z, in milliseconds. *)
Definition sampleNow : Z := 1710504000000.

Definition sampleClock : Clock :=
  mkClock sampleNow sampleNow sampleNow sampleNow.

(** The civil date of a day number, the inverse of [daysFromCivil]. *)
Definition civilFromDays (z : Z) : Z * Z * Z :=
  let z' := (z + 719468)%Z in
  let era := (z' / 146097)%Z in
  let doe := (z' - era * 146097)%Z in
  let yoe := ((doe - doe / 1460 + doe / 36524 - doe / 146096) / 365)%Z in
  let doy := (doe - (365 * yoe + yoe / 4 - yoe / 100))%Z in
  let mp := ((5 * doy + 2) / 153)%Z in
  let d := (doy - (153 * mp + 2) / 5 + 1)%Z in
  let m := (if mp <? 10 then mp + 3 else mp - 9)%Z in
  let y := (yoe + era * 400)%Z in
  ((if m <=? 2 then y + 1 else y)%Z, m, d).

Definition digitChar (d : Z) : ascii :=
  ascii_of_N (48 + Z.to_N (d mod 10)).

Definition pad2 (n : Z) : string :=
  String (digitChar (n / 10)) (String (digitChar n) EmptyString).

Definition pad3 (n : Z) : string := String (digitChar (n / 100)) (pad2 n).

Definition pad4 (n : Z) : string := String (digitChar (n / 1000)) (pad3 n).

(** [toISOString] of an instant of the years 0000 to 9999:
    [YYYY-MM-DDTHH:MM:SS.sssZ]. *)
Definition sampleToISOString (ms : Z) : string :=
  let rest := (ms mod 86400000)%Z in
  let '(y, m, d) := civilFromDays (ms / 86400000) in
  pad4 y +:+ "-" +:+ pad2 m +:+ "-" +:+ pad2 d +:+ "T"
  +:+ pad2 (rest / 3600000) +:+ ":" +:+ pad2 (rest / 60000 mod 60) +:+ ":"
  +:+ pad2 (rest / 1000 mod 60) +:+ "." +:+ pad3 (rest mod 1000) +:+ "Z".

(** The first instant of the calendar month, for a host in the UTC zone. *)
Definition sampleStartOfMonth (ms : Z) : Z :=
  let '(y, m, _) := civilFromDays (ms / 86400000) in
  (daysFromCivil y m 1 * 86400000)%Z.




End Analytics.

(* ====================================================================== *)
(** ** The hook around the query *)
(* ====================================================================== *)

Module Hook.
Import Analytics.

(** [s.replace(/-/g, '')] *)
Fixpoint removeDashes (s : string) : string :=
  match s with
  | EmptyString => EmptyString
  | String c s' =>
      if Ascii.eqb c "-" then removeDashes s' else String c (removeDashes s')
  end.

(** The two environment variables the hooks read. *)
Record Env : Type := mkEnv {
  VITE_OP3_API_TOKEN : option string;
  VITE_PODCAST_GUID : option string
}.

(** What the hooks read of the podcast metadata. *)
Record PodcastMetadata : Type := mkMetadata { useOP3 : option bool }.

(** [rawGuid?.replace(/-/g, '')] *)
Definition showUuid (env : Env) : option string :=
  removeDashes <$> VITE_PODCAST_GUID env.

(** [podcastMetadata?.useOP3 || false] *)
Definition useOP3Flag (podcastMetadata : option PodcastMetadata) : bool :=
  match podcastMetadata with
  | Some m => default false (useOP3 m)
  | None => false
  end.

(** The [enabled] option of the query. *)
Definition enabled (podcastMetadata : option PodcastMetadata) (env : Env)
  : bool :=
  useOP3Flag podcastMetadata
  && JS.truthyOpt (VITE_OP3_API_TOKEN env)
  && JS.truthyOpt (showUuid env).

Record Availability : Type := mkAvailability {
  isAvailable : bool;
  isEnabled : bool;
  hasCredentials : bool
}.

Definition useOP3Available (podcastMetadata : option PodcastMetadata)
    (env : Env) : Availability :=
  {| isAvailable :=
       useOP3Flag podcastMetadata
       && JS.truthyOpt (VITE_OP3_API_TOKEN env)
       && JS.truthyOpt (showUuid env);
     isEnabled := useOP3Flag podcastMetadata;
     hasCredentials :=
       JS.truthyOpt (VITE_OP3_API_TOKEN env)
       && JS.truthyOpt (showUuid env) |}.

(** The answer of the shows endpoint: a failure with its status and body
    text, or the show with its OP3 identifier and its episodes. *)
Inductive ShowResponse : Type :=
| ShowNotOk (status : nat) (errorText : string)
| ShowOk (showUuid : string) (episodes : option (list Episode.t)).

(** The two errors the query function throws. *)
Inductive QueryError : Type :=
| CredentialsNotConfigured
| OP3ApiError (status : nat) (errorText : string).

Section QueryFn.
Variable getTime : string -> option Z.
Variable toISOString : Z -> string.
Variable startOfMonth : Z -> Z.
(** The shows endpoint, by the GUID and the token of the URL. *)
Variable fetchShow : string -> string -> ShowResponse.
(** The downloads endpoint, by the show identifier, the [start] and [end]
    dates and the token of the URL. *)
Variable fetchDownloads :
  string -> string -> string -> string -> DownloadsResponse.

(** The whole query function. *)
Definition queryFn (env : Env) (timeRange : TimeRange) (clock : Clock)
  : QueryError + OP3Analytics :=
  if negb (JS.truthyOpt (VITE_OP3_API_TOKEN env))
     || negb (JS.truthyOpt (VITE_PODCAST_GUID env))
  then inl CredentialsNotConfigured
  else
    let apiToken := default EmptyString (VITE_OP3_API_TOKEN env) in
    let rawGuid := default EmptyString (VITE_PODCAST_GUID env) in
    match fetchShow rawGuid apiToken with
    | ShowNotOk status errorText => inl (OP3ApiError status errorText)
    | ShowOk uuid episodes =>
        inr (useOP3Analytics getTime toISOString startOfMonth
               (fun startDate endDate =>
                  fetchDownloads uuid startDate endDate apiToken)
               timeRange clock (default [] episodes))
    end.
End QueryFn.

End Hook.

(* ====================================================================== *)
(** ** The analytics panel *)
(* ====================================================================== *)

Module Chart.
Import Analytics.

Definition CHART_COLORS : list string :=
  ["#3b82f6"; "#10b981"; "#a855f7"; "#f59e0b"; "#ec4899"].

(** A [Line] of the chart: its [dataKey] and its [stroke], which is
    [CHART_COLORS[index % CHART_COLORS.length]]. *)
Record Line : Type := mkLine { dataKey : string; stroke : option string }.

(** [analytics.episodeStats.slice(0, 6).map((episode, index) => <Line/>)] *)
Definition lines (analytics : OP3Analytics) : list Line :=
  imap
    (fun index episode =>
       mkLine (EpisodeStat.episodeId episode)
         (CHART_COLORS !! (index mod length CHART_COLORS)))
    (JSArray.slice0 6 (episodeStats analytics)).

(** The name the tooltip shows for a series:
    [episodeStats.find(ep => ep.episodeId === name)?.url || name]. *)
Definition tooltipName (analytics : OP3Analytics) (name : string) : string :=
  match List.find (fun ep => String.eqb (EpisodeStat.episodeId ep) name)
          (episodeStats analytics) with
  | Some episode =>
      if JS.truthy (EpisodeStat.url episode) then EpisodeStat.url episode
      else name
  | None => name
  end.

End Chart.

(* ====================================================================== *)
(** ** The upload mutation *)
(* ====================================================================== *)

Module Upload.

Inductive Outcome : Type :=
| Failed (message : string)
| Uploaded (tags : list (list string)).

Section Mutation.
Context {User : Type}.
(** The uploader (servers and signer of the user): the tags, or what it
    throws, [Some message] for an [Error] and [None] for anything else. *)
Variable upload : User -> Mime.File -> option string + list (list string).

(** [mutationFn], with the files handed to the uploader; [now] is the
    reading of the clock when the type is corrected. *)
Definition mutationFn (now : Z) (user : option User) (file : Mime.File)
  : list Mime.File * Outcome :=
  match user with
  | None => ([], Failed "Must be logged in to upload files")
  | Some u =>
      let correctedFile := Mime.ensureCorrectMimeType now file in
      match upload u correctedFile with
      | inr tags => ([correctedFile], Uploaded tags)
      | inl error =>
          ([correctedFile],
           Failed ("Upload failed: " +:+ default "Unknown error" error))
      end
  end.
End Mutation.

End Upload.

(* ====================================================================== *)
(** ** Further vocabulary *)
(* ====================================================================== *)

Module Tally.
Import Analytics.

(** The number of rows of [item] on the date [d]. *)
Definition downloadsOn (item d : string) (rows : list DownloadRow) : nat :=
  length (List.filter
            (fun r => bool_decide (itemId r = item /\ rowDate r = d)) rows).

(** The number of rows of [item] whose date is [d] or earlier, in the order
    of the sort of the dates. *)
Definition downloadsUpTo (item d : string) (rows : list DownloadRow) : nat :=
  length (List.filter
            (fun r => bool_decide
               (itemId r = item /\ (JS.compareStrings (rowDate r) d <= 0)%Z))
            rows).

(** [h] is the non-empty address hash of a row of [item]. *)
Definition hashOf (item h : string) (rows : list DownloadRow) : Prop :=
  exists r, r ∈ rows /\ itemId r = item /\ hashedIpAddress r = Some h /\
            JS.truthy h = true.

(** [h] is the non-empty address hash of some row. *)
Definition hashIn (h : string) (rows : list DownloadRow) : Prop :=
  exists r, r ∈ rows /\ hashedIpAddress r = Some h /\ JS.truthy h = true.

(** [ep] carries a non-empty title for [id]. *)
Definition titles (id t : string) (ep : Episode.t) : Prop :=
  Episode.id ep = id /\ Episode.title ep = Some t /\ JS.truthy t = true.

(** No episode of [eps] carries a non-empty title for [id]. *)
Definition untitled (id : string) (eps : list Episode.t) : Prop :=
  forall ep t, ep ∈ eps -> ~ titles id t ep.

End Tally.

(* ====================================================================== *)
(** ** Facts about the string primitives *)
(* ====================================================================== *)

Lemma append_nil_r (s : string) : s +:+ EmptyString = s.
Proof.
  induction s as [|c s IH]; [reflexivity|].
  change (String c (s +:+ EmptyString) = String c s). now rewrite IH.
Qed.

Lemma startsWith_app (p s : string) : JS.startsWith (p +:+ s) p = true.
Proof.
  induction p as [|c p IH]; [reflexivity|].
  change (JS.startsWith (String c (p +:+ s)) (String c p) = true).
  cbn [JS.startsWith]. now rewrite Ascii.eqb_refl.
Qed.

Lemma startsWith_split (s p : string) :
  JS.startsWith s p = true -> s = p +:+ JS.substring (String.length p) s.
Proof.
  revert s; induction p as [|c p IH]; intros s H; [reflexivity|].
  destruct s as [|d s]; [discriminate|].
  cbn [JS.startsWith] in H.
  destruct (Ascii.eqb c d) eqn:E; [|discriminate].
  apply Ascii.eqb_eq in E; subst d.
  change (String c s = String c (p +:+ JS.substring (String.length p) s)).
  f_equal. now apply IH.
Qed.

Lemma substring_app (p s : string) : JS.substring (String.length p) (p +:+ s) = s.
Proof. induction p as [|c p IH]; [reflexivity | exact IH]. Qed.


(* ====================================================================== *)
(** ** Results: OP3 prefix *)
(* ====================================================================== *)

Example addOP3Prefix_https :
  OP3.addOP3Prefix "https://example.com/a.mp3" = "https://op3.dev/e/example.com/a.mp3".
Proof. reflexivity. Qed.

Example addOP3Prefix_http :
  OP3.addOP3Prefix "http://example.com/a.mp3" = "https://op3.dev/e/example.com/a.mp3".
Proof. reflexivity. Qed.

Example removeOP3Prefix_other :
  OP3.removeOP3Prefix "http://example.com/a.mp3" = "http://example.com/a.mp3".
Proof. reflexivity. Qed.

(** C9, as stated, fails: a URL that begins with "https://" and already carries
    the OP3 prefix is returned unchanged by [addOP3Prefix], and
    [removeOP3Prefix] then strips the prefix, so the round trip yields a
    different string. *)
Lemma C9_roundtrip_counterexample :
  JS.startsWith "https://op3.dev/e/example.com/a.mp3" "https://" = true /\
  OP3.removeOP3Prefix (OP3.addOP3Prefix "https://op3.dev/e/example.com/a.mp3")
    = "https://example.com/a.mp3" /\
  OP3.removeOP3Prefix (OP3.addOP3Prefix "https://op3.dev/e/example.com/a.mp3")
    <> "https://op3.dev/e/example.com/a.mp3".
Proof. split; [reflexivity|]. split; [reflexivity | discriminate]. Qed.

(** C9, amended: for every URL that begins with "https://" and does not
    already begin with the OP3 prefix, adding the prefix drops the scheme and
    prepends "https://op3.dev/e/", and removing the prefix afterwards gives
    back exactly the original URL. *)
Theorem C9_roundtrip_unprefixed (url : string) :
  JS.startsWith url "https://" = true ->
  JS.startsWith url OP3.OP3_PREFIX = false ->
  OP3.addOP3Prefix url = OP3.OP3_PREFIX +:+ JS.substring 8 url /\
  OP3.removeOP3Prefix (OP3.addOP3Prefix url) = url.
Proof.
  intros Hs Hp.
  assert (Hadd : OP3.addOP3Prefix url = OP3.OP3_PREFIX +:+ JS.substring 8 url).
  { unfold OP3.addOP3Prefix, OP3.stripProtocol.
    destruct url as [|c u]; [discriminate|].
    cbn [JS.truthy negb]. now rewrite Hp, Hs. }
  split; [exact Hadd|].
  rewrite Hadd. unfold OP3.removeOP3Prefix.
  rewrite startsWith_app, substring_app.
  change (JS.truthy (OP3.OP3_PREFIX +:+ JS.substring 8 url)) with true.
  cbn [negb].
  symmetry. exact (startsWith_split url "https://" Hs).
Qed.

Lemma C9_roundtrip_unprefixed_witness :
  JS.startsWith "https://example.com/a.mp3" "https://" = true /\
  JS.startsWith "https://example.com/a.mp3" OP3.OP3_PREFIX = false /\
  OP3.addOP3Prefix "https://example.com/a.mp3"
    = OP3.OP3_PREFIX +:+ JS.substring 8 "https://example.com/a.mp3" /\
  OP3.removeOP3Prefix (OP3.addOP3Prefix "https://example.com/a.mp3")
    = "https://example.com/a.mp3".
Proof.
  split; [reflexivity|]. split; [reflexivity|].
  apply (C9_roundtrip_unprefixed "https://example.com/a.mp3"); reflexivity.
Defined.

(* ====================================================================== *)
(** ** Results: MIME type correction *)
(* ====================================================================== *)

Example ensureCorrectMimeType_mp3 :
  Mime.ensureCorrectMimeType 2000
    (Mime.mkFile "Show.Ep1.MP3" EmptyString [] 1000 EmptyString)
  = Mime.mkFile "Show.Ep1.MP3" "audio/mpeg" [] 2000 EmptyString.
Proof. vm_compute. reflexivity. Qed.

Example ensureCorrectMimeType_typed :
  Mime.ensureCorrectMimeType 2000
    (Mime.mkFile "a.mp3" "audio/x-custom" [] 1000 "podcasts/a.mp3")
  = Mime.mkFile "a.mp3" "audio/x-custom" [] 1000 "podcasts/a.mp3".
Proof. reflexivity. Qed.

Example ensureCorrectMimeType_trailing_dot :
  Mime.ensureCorrectMimeType 2000
    (Mime.mkFile "a.mp3." EmptyString [] 1000 EmptyString)
  = Mime.mkFile "a.mp3." EmptyString [] 1000 EmptyString.
Proof. vm_compute. reflexivity. Qed.

Lemma truthy_false (s : string) : JS.truthy s = false -> s = EmptyString.
Proof. destruct s; [reflexivity | discriminate]. Qed.

Lemma falsy_type_cases (t : string) :
  JS.truthy t && negb (String.eqb t "application/octet-stream") = false ->
  t = EmptyString \/ t = "application/octet-stream".
Proof.
  intros H. apply andb_false_iff in H as [H|H].
  - left. now apply truthy_false.
  - right. apply negb_false_iff in H. now apply String.eqb_eq.
Qed.

Lemma matchExtension_Some (s ext : string) :
  Mime.matchExtension s = Some ext ->
  exists pre rest,
    s = pre +:+ ext /\ ext = String "." rest /\
    JS.truthy rest = true /\ JS.lacks "." rest = true.
Proof.
  induction s as [|c s IH]; [discriminate|]. cbn [Mime.matchExtension].
  destruct (Ascii.eqb c "." && JS.truthy s && JS.lacks "." s) eqn:E.
  - intros [= <-]. apply andb_true_iff in E as [E Hl].
    apply andb_true_iff in E as [Hc Ht]. apply Ascii.eqb_eq in Hc. subst c.
    exists EmptyString, s. auto.
  - intros H. destruct (IH H) as (pre & rest & -> & -> & Ht & Hl).
    exists (String c pre), rest. auto.
Qed.

Lemma table_entry (ext t : string) :
  Mime.MIME_TYPE_MAP !! ext = Some t ->
  JS.truthy t = true /\
  String.eqb t "application/octet-stream" = false /\
  Mime.normalizeType t = t.
Proof.
  unfold Mime.MIME_TYPE_MAP. intros H.
  apply elem_of_list_to_map_2 in H.
  repeat (apply elem_of_cons in H as [[= -> ->]|H];
          [repeat split; reflexivity|]).
  now apply elem_of_nil in H.
Qed.

(** A correctable file is replaced by a new [File]: the name and the bytes
    of the input, the table's type, the time of the call and an empty
    relative path. *)
Lemma ensureCorrectMimeType_correctable (now : Z) (file : Mime.File) :
  Mime.correctable file ->
  exists ext t,
    Mime.matchExtension (JS.toLowerCase (Mime.name file)) = Some ext /\
    Mime.MIME_TYPE_MAP !! ext = Some t /\
    Mime.ensureCorrectMimeType now file
    = Mime.mkFile (Mime.name file) t (Mime.bytes file) now EmptyString /\
    JS.truthy t = true /\
    String.eqb t "application/octet-stream" = false.
Proof.
  intros (Ht & ext & Hext & [t Hmap]). exists ext, t.
  destruct (table_entry ext t Hmap) as (Htr & Hoct & Hnorm).
  split; [exact Hext|]. split; [exact Hmap|].
  split; [|split; assumption].
  unfold Mime.ensureCorrectMimeType. rewrite Hext, Hmap, Htr.
  destruct (matchExtension_Some _ _ Hext) as (_ & rest & _ & -> & _).
  cbn [JS.truthy negb].
  assert (JS.truthy (Mime.type file)
          && negb (String.eqb (Mime.type file) "application/octet-stream")
          = false) as ->.
  { destruct Ht as [-> | ->]; reflexivity. }
  unfold Mime.newFile. now rewrite Hnorm.
Qed.

(** A file that is not correctable is returned as it is. *)
Lemma ensureCorrectMimeType_not_correctable (now : Z) (file : Mime.File) :
  ~ Mime.correctable file -> Mime.ensureCorrectMimeType now file = file.
Proof.
  intros Hn. unfold Mime.ensureCorrectMimeType.
  destruct (JS.truthy (Mime.type file)
            && negb (String.eqb (Mime.type file) "application/octet-stream"))
    eqn:Ht; [reflexivity|].
  apply falsy_type_cases in Ht.
  destruct (Mime.matchExtension (JS.toLowerCase (Mime.name file)))
    as [ext|] eqn:Hext; [|reflexivity].
  destruct (negb (JS.truthy ext)); [reflexivity|].
  destruct (Mime.MIME_TYPE_MAP !! ext) as [correctType|] eqn:Hmap;
    [|reflexivity].
  elim Hn. split; [exact Ht|]. exists ext. split; [exact Hext|].
  rewrite Hmap. now eexists.
Qed.

Lemma correctable_dec (file : Mime.File) :
  Mime.correctable file \/ ~ Mime.correctable file.
Proof.
  unfold Mime.correctable.
  destruct (Mime.matchExtension (JS.toLowerCase (Mime.name file)))
    as [ext|] eqn:Hext.
  - destruct (Mime.MIME_TYPE_MAP !! ext) as [t|] eqn:Hmap.
    + destruct (decide (Mime.type file = EmptyString)) as [He|He].
      { left. split; [now left|]. exists ext. rewrite Hmap. eauto. }
      destruct (decide (Mime.type file = "application/octet-stream"))
        as [Ho|Ho].
      { left. split; [now right|]. exists ext. rewrite Hmap. eauto. }
      right. intros [[H|H] _]; contradiction.
    + right. intros (_ & ext' & [= <-] & [t Ht]). congruence.
  - right. intros (_ & ext' & [=] & _).
Qed.

(** C10, as stated, fails: for a file with an empty type and a known
    extension the result is a new [File], and besides the type two more
    fields differ from the input's: [lastModified], which becomes the time
    of the call, and [webkitRelativePath], which becomes empty. *)
Lemma C10_other_fields_counterexample :
  let file := Mime.mkFile "a.mp3" EmptyString [] 1000 "podcasts/a.mp3" in
  let result := Mime.ensureCorrectMimeType 2000 file in
  result = Mime.mkFile "a.mp3" "audio/mpeg" [] 2000 EmptyString /\
  Mime.lastModified result <> Mime.lastModified file /\
  Mime.webkitRelativePath result <> Mime.webkitRelativePath file.
Proof.
  split; [vm_compute; reflexivity|].
  split; vm_compute; discriminate.
Qed.

(** C10, amended: [ensureCorrectMimeType] keeps the name and the bytes of
    every file; the type differs from the input's only when the input's
    type is empty or "application/octet-stream" and the lower-cased name's
    extension is in [MIME_TYPE_MAP]; in exactly that case the result is a
    new file, dated at the time of the call and with an empty relative
    path, whatever the input's modification time and path were; in every
    other case the input file itself is returned. *)
Theorem C10_ensureCorrectMimeType_frame (now : Z) (file : Mime.File) :
  let result := Mime.ensureCorrectMimeType now file in
  Mime.name result = Mime.name file /\
  Mime.bytes result = Mime.bytes file /\
  (Mime.type result <> Mime.type file -> Mime.correctable file) /\
  (Mime.correctable file ->
   Mime.lastModified result = now /\
   Mime.webkitRelativePath result = EmptyString) /\
  (~ Mime.correctable file -> result = file).
Proof.
  cbv zeta.
  destruct (correctable_dec file) as [Hc|Hn].
  - destruct (ensureCorrectMimeType_correctable now file Hc)
      as (ext & t & _ & _ & -> & _).
    cbn [Mime.name Mime.bytes Mime.lastModified Mime.webkitRelativePath].
    split; [reflexivity|]. split; [reflexivity|].
    split; [intros _; exact Hc|].
    split; [intros _; split; reflexivity|].
    intros Hn. now elim Hn.
  - rewrite (ensureCorrectMimeType_not_correctable now file Hn).
    split; [reflexivity|]. split; [reflexivity|].
    split; [intros Hne; now elim Hne|].
    split; [intros Hc; now elim Hn | reflexivity].
Qed.

(* ====================================================================== *)
(** ** Facts about the collections *)
(* ====================================================================== *)

Section MapFacts.
Context {V : Type}.
Implicit Types (m : list (string * V)) (k : string) (v : V).

Lemma get_set_eq m k v : JSMap.get k (JSMap.set k v m) = Some v.
Proof.
  induction m as [|[k' v'] m IH]; cbn.
  - now rewrite String.eqb_refl.
  - destruct (String.eqb k k') eqn:E; cbn; rewrite ?String.eqb_refl, ?E; auto.
Qed.

Lemma get_set_ne m k k' v :
  k <> k' -> JSMap.get k' (JSMap.set k v m) = JSMap.get k' m.
Proof.
  intros Hne. induction m as [|[k0 v0] m IH]; cbn.
  - apply String.eqb_neq in Hne. rewrite String.eqb_sym. now rewrite Hne.
  - destruct (String.eqb k k0) eqn:E; cbn.
    + apply String.eqb_eq in E; subst k0.
      assert (String.eqb k' k = false) as ->; [|reflexivity].
      apply String.eqb_neq. congruence.
    + now rewrite IH.
Qed.

Lemma get_None m k : JSMap.get k m = None <-> k ∉ JSMap.keys m.
Proof.
  unfold JSMap.keys.
  induction m as [|[k' v'] m IH]; cbn.
  - split; [intros _; apply not_elem_of_nil | reflexivity].
  - rewrite not_elem_of_cons.
    destruct (String.eqb k k') eqn:E.
    + apply String.eqb_eq in E. split; [discriminate | tauto].
    + apply String.eqb_neq in E. rewrite IH. tauto.
Qed.

Lemma get_Some_keys m k v : JSMap.get k m = Some v -> k ∈ JSMap.keys m.
Proof.
  intros H. destruct (decide (k ∈ JSMap.keys m)) as [|Hn]; [assumption|].
  apply get_None in Hn. congruence.
Qed.

Lemma get_elem_of m k v : JSMap.get k m = Some v -> (k, v) ∈ m.
Proof.
  induction m as [|[k' v'] m IH]; cbn; [discriminate|].
  destruct (String.eqb k k') eqn:E.
  - apply String.eqb_eq in E; subst. intros [= ->]. apply list_elem_of_here.
  - intros H. apply list_elem_of_further. auto.
Qed.

Lemma elem_of_get m k v :
  NoDup (JSMap.keys m) -> (k, v) ∈ m -> JSMap.get k m = Some v.
Proof.
  unfold JSMap.keys.
  induction m as [|[k' v'] m IH]; cbn; intros Hnd Hin.
  - now apply elem_of_nil in Hin.
  - apply NoDup_cons in Hnd as [Hk Hnd].
    apply elem_of_cons in Hin as [[= -> ->]|Hin].
    + now rewrite String.eqb_refl.
    + destruct (String.eqb k k') eqn:E; [|auto].
      apply String.eqb_eq in E; subst k'. elim Hk.
      change k with ((k, v).1). now apply list_elem_of_fmap_2.
Qed.

Lemma set_present m k v :
  k ∈ JSMap.keys m -> JSMap.keys (JSMap.set k v m) = JSMap.keys m.
Proof.
  unfold JSMap.keys.
  induction m as [|[k' v'] m IH]; cbn; intros Hin.
  - now apply elem_of_nil in Hin.
  - destruct (String.eqb k k') eqn:E; cbn.
    + apply String.eqb_eq in E. now subst.
    + apply String.eqb_neq in E. f_equal. apply IH.
      apply elem_of_cons in Hin as [?|?]; [congruence | assumption].
Qed.

Lemma set_absent m k v :
  k ∉ JSMap.keys m -> JSMap.set k v m = m ++ [(k, v)].
Proof.
  unfold JSMap.keys.
  induction m as [|[k' v'] m IH]; cbn; intros Hin; [reflexivity|].
  apply not_elem_of_cons in Hin as [Hne Hin].
  apply String.eqb_neq in Hne. rewrite Hne. f_equal. auto.
Qed.

(** The keys after [set], in either case. *)
Lemma keys_set m k v :
  JSMap.keys (JSMap.set k v m)
  = if decide (k ∈ JSMap.keys m) then JSMap.keys m
    else JSMap.keys m ++ [k].
Proof.
  destruct (decide (k ∈ JSMap.keys m)) as [Hin|Hin].
  - now apply set_present.
  - rewrite set_absent by assumption. unfold JSMap.keys.
    now rewrite fmap_app.
Qed.

Lemma has_true m k : JSMap.has k m = true <-> k ∈ JSMap.keys m.
Proof.
  unfold JSMap.has. destruct (JSMap.get k m) eqn:E.
  - split; [intros _; eapply get_Some_keys; eauto | reflexivity].
  - split; [discriminate|]. intros Hin. apply get_None in E. tauto.
Qed.
End MapFacts.

Lemma before_nil {A} (a b : A) : ~ Analytics.before a b [].
Proof. intros (i & j & _ & H & _). now rewrite lookup_nil in H. Qed.

Lemma before_cons {A} (a b x : A) (l : list A) :
  Analytics.before a b (x :: l) <-> (a = x /\ b ∈ l) \/ Analytics.before a b l.
Proof.
  split.
  - intros (i & j & Hlt & Hi & Hj).
    destruct j as [|j]; [lia|]. cbn in Hj.
    destruct i as [|i]; cbn in Hi.
    + left. split; [congruence|]. eapply list_elem_of_lookup_2; eauto.
    + right. exists i, j. split; [lia|]. auto.
  - intros [[-> Hb]|(i & j & Hlt & Hi & Hj)].
    + apply list_elem_of_lookup_1 in Hb as [j Hj].
      exists 0, (S j). split; [lia|]. auto.
    + exists (S i), (S j). split; [lia|]. auto.
Qed.

Lemma before_elem_of {A} (a b : A) (l : list A) :
  Analytics.before a b l -> a ∈ l /\ b ∈ l.
Proof.
  intros (i & j & _ & Hi & Hj).
  split; eapply list_elem_of_lookup_2; eauto.
Qed.

Lemma before_snoc {A} (a b : A) (l : list A) :
  a ∈ l -> Analytics.before a b (l ++ [b]).
Proof.
  intros Ha. apply list_elem_of_lookup_1 in Ha as [i Hi].
  exists i, (length l). split; [eapply lookup_lt_Some; eauto|].
  split; [now apply lookup_app_l_Some|].
  rewrite lookup_app_r by lia. now rewrite Nat.sub_diag.
Qed.

Lemma before_app_inv {A} (a b x : A) (l : list A) :
  Analytics.before a b (l ++ [x]) ->
  Analytics.before a b l \/ (a ∈ l /\ b = x).
Proof.
  intros (i & j & Hlt & Hi & Hj).
  apply lookup_snoc_Some in Hj as [[Hjl Hj]|[Hjl ->]].
  - left. exists i, j. split; [lia|]. split; [|assumption].
    rewrite lookup_app_l in Hi by lia. assumption.
  - right. split; [|reflexivity].
    rewrite lookup_app_l in Hi by lia. eapply list_elem_of_lookup_2; eauto.
Qed.

Section SortFacts.
Context {A : Type} (compareFn : A -> A -> Z).
Implicit Types (x a b : A) (l : list A).

Lemma insert_Permutation x l : JSArray.insert compareFn x l ≡ₚ x :: l.
Proof.
  induction l as [|y l IH]; cbn; [reflexivity|].
  destruct (compareFn x y <=? 0)%Z; [reflexivity|].
  rewrite IH. apply Permutation_swap.
Qed.

Lemma sort_Permutation l : JSArray.sort compareFn l ≡ₚ l.
Proof.
  induction l as [|x l IH]; cbn; [reflexivity|].
  now rewrite insert_Permutation, IH.
Qed.

Lemma sort_elem_of x l : x ∈ JSArray.sort compareFn l <-> x ∈ l.
Proof. now rewrite sort_Permutation. Qed.

Lemma sort_length l : length (JSArray.sort compareFn l) = length l.
Proof. now rewrite sort_Permutation. Qed.

Lemma insert_before a b x l :
  Analytics.before a b (JSArray.insert compareFn x l) ->
  Analytics.before a b l \/ (a = x /\ b ∈ l) \/
  (b = x /\ a ∈ l /\ (0 < compareFn x a)%Z).
Proof.
  induction l as [|y l IH]; cbn.
  - intros H. apply before_cons in H as [[_ H]|H].
    + now apply elem_of_nil in H.
    + now apply before_nil in H.
  - destruct (compareFn x y <=? 0)%Z eqn:E.
    + intros H. apply before_cons in H as [[-> H]|H]; auto.
    + apply Z.leb_gt in E. intros H.
      apply before_cons in H as [[-> H]|H].
      * rewrite insert_Permutation in H.
        apply elem_of_cons in H as [->|H].
        -- right; right. split; [reflexivity|]. split; [left|lia].
        -- left. apply before_cons. auto.
      * destruct (IH H) as [H1|[[-> H1]|(-> & H1 & H2)]].
        -- left. apply before_cons. auto.
        -- right; left. split; [reflexivity|]. now right.
        -- right; right. split; [reflexivity|]. split; [now right|lia].
Qed.

(** Stability: two elements that the comparison does not force apart keep
    their relative order. *)
Lemma sort_stable a b l :
  Analytics.before a b (JSArray.sort compareFn l) ->
  (compareFn b a <= 0)%Z -> Analytics.before a b l.
Proof.
  induction l as [|x l IH]; cbn; intros H Hc.
  - now apply before_nil in H.
  - apply insert_before in H as [H|[[-> H]|(-> & _ & H)]].
    + apply before_cons. auto.
    + apply before_cons. left. split; [reflexivity|].
      exact (proj1 (sort_elem_of _ _) H).
    + lia.
Qed.

Hypothesis compare_trans : forall a b c,
  (compareFn a b <= 0)%Z -> (compareFn b c <= 0)%Z -> (compareFn a c <= 0)%Z.
Hypothesis compare_total : forall a b,
  (0 < compareFn a b)%Z -> (compareFn b a <= 0)%Z.

Lemma insert_sorted x l :
  StronglySorted (fun a b => (compareFn a b <= 0)%Z) l ->
  StronglySorted (fun a b => (compareFn a b <= 0)%Z)
    (JSArray.insert compareFn x l).
Proof.
  induction 1 as [|y l Hs IH Hy]; cbn.
  - repeat constructor.
  - destruct (compareFn x y <=? 0)%Z eqn:E.
    + apply Z.leb_le in E. constructor; [now constructor|].
      constructor; [assumption|].
      eapply Forall_impl; [exact Hy|]. cbn. eauto.
    + apply Z.leb_gt in E. constructor; [assumption|].
      rewrite insert_Permutation. constructor; auto.
Qed.

Lemma sort_sorted l :
  StronglySorted (fun a b => (compareFn a b <= 0)%Z)
    (JSArray.sort compareFn l).
Proof.
  induction l as [|x l IH]; cbn; [constructor | now apply insert_sorted].
Qed.

Lemma sorted_before (R : A -> A -> Prop) a b l :
  StronglySorted R l -> Analytics.before a b l -> R a b.
Proof.
  induction 1 as [|y l Hs IH Hy]; intros H.
  - now apply before_nil in H.
  - apply before_cons in H as [[-> H]|H]; [|auto].
    rewrite Forall_forall in Hy. auto.
Qed.

Lemma sort_before a b l :
  Analytics.before a b (JSArray.sort compareFn l) ->
  (compareFn a b <= 0)%Z.
Proof.
  intros H.
  exact (sorted_before (fun a b => (compareFn a b <= 0)%Z) a b _
           (sort_sorted l) H).
Qed.
End SortFacts.

(* ====================================================================== *)
(** ** Facts about grouping *)
(* ====================================================================== *)

Import Analytics.

Section FirstIndex.
Variable keyOf : DownloadRow -> option string.
Implicit Types (k : string) (rows : list DownloadRow) (r : DownloadRow).

Lemma firstIndex_lt k rows p :
  firstIndex keyOf k rows = Some p -> p < length rows.
Proof.
  revert p; induction rows as [|r rows IH]; cbn; intros p; [discriminate|].
  destruct (decide (keyOf r = Some k)); [intros [= <-]; lia|].
  destruct (firstIndex keyOf k rows) as [q|]; cbn; [|discriminate].
  intros [= <-]. specialize (IH q eq_refl). lia.
Qed.

Lemma firstIndex_snoc k rows r :
  firstIndex keyOf k (rows ++ [r])
  = match firstIndex keyOf k rows with
    | Some p => Some p
    | None => if decide (keyOf r = Some k) then Some (length rows) else None
    end.
Proof.
  induction rows as [|r0 rows IH]; cbn.
  - now destruct (decide (keyOf r = Some k)).
  - destruct (decide (keyOf r0 = Some k)); [reflexivity|].
    rewrite IH. destruct (firstIndex keyOf k rows); cbn; [reflexivity|].
    now destruct (decide (keyOf r = Some k)).
Qed.

Lemma firstIndex_Some_elem k rows :
  is_Some (firstIndex keyOf k rows) <->
  exists r, r ∈ rows /\ keyOf r = Some k.
Proof.
  induction rows as [|r0 rows IH]; cbn.
  - split; [intros [? [=]] | intros (r & H & _); now apply elem_of_nil in H].
  - destruct (decide (keyOf r0 = Some k)) as [E|E].
    + split; [intros _; exists r0; split; [left|assumption] | eauto].
    + rewrite fmap_is_Some, IH. split.
      * intros (r & H & Hr). exists r. split; [now right | assumption].
      * intros (r & H & Hr). apply elem_of_cons in H as [->|H]; [tauto|].
        eauto.
Qed.

Lemma occurrences_snoc k rows r :
  occurrences keyOf k (rows ++ [r])
  = occurrences keyOf k rows + (if decide (keyOf r = Some k) then 1 else 0).
Proof.
  unfold occurrences. rewrite List.filter_app, length_app. cbn.
  destruct (decide (keyOf r = Some k)) as [E|E].
  - now rewrite bool_decide_eq_true_2.
  - now rewrite bool_decide_eq_false_2.
Qed.


Lemma occurrences_pos k rows :
  0 < occurrences keyOf k rows <-> is_Some (firstIndex keyOf k rows).
Proof.
  induction rows as [|r rows IH] using rev_ind.
  - cbn. split; [lia | intros [? [=]]].
  - rewrite occurrences_snoc, firstIndex_snoc.
    destruct (firstIndex keyOf k rows) as [p|].
    + split; [eauto|]. intros _.
      assert (0 < occurrences keyOf k rows) by (apply IH; eauto). lia.
    + assert (occurrences keyOf k rows = 0) as ->.
      { destruct (occurrences keyOf k rows); [reflexivity|].
        assert (is_Some (@None nat)) as [? [=]]. apply IH. lia. }
      destruct (decide (keyOf r = Some k)); cbn.
      * split; [eauto | lia].
      * split; [lia | intros [? [=]]].
Qed.
End FirstIndex.

(** A pass over the rows that appends the key of a row to the keys of a map
    when that key is new, and otherwise leaves the keys as they are, lists
    the keys in the order of their first rows. *)
Section KeyOrder.
Context {V : Type}.
Variable keyOf : DownloadRow -> option string.
Variable step : list (string * V) -> DownloadRow -> list (string * V).
Hypothesis step_keys : forall m r,
  JSMap.keys (step m r)
  = match keyOf r with
    | None => JSMap.keys m
    | Some k => if decide (k ∈ JSMap.keys m) then JSMap.keys m
                else JSMap.keys m ++ [k]
    end.

Lemma fold_keys rows :
  keysInRowOrder keyOf rows (JSMap.keys (fold_left step rows [])).
Proof.
  induction rows as [|r rows (Hnd & Hmem & Hord)] using rev_ind.
  - repeat split.
    + constructor.
    + intros H. now apply elem_of_nil in H.
    + intros [? [=]].
    + intros k k' H. now apply before_nil in H.
  - rewrite fold_left_app. cbn [fold_left]. rewrite step_keys.
    set (m := fold_left step rows []) in *.
    assert (Hsame : forall k,
      is_Some (firstIndex keyOf k rows) ->
      firstIndex keyOf k (rows ++ [r]) = firstIndex keyOf k rows).
    { intros k [p Hp]. now rewrite firstIndex_snoc, Hp. }
    destruct (keyOf r) as [k0|] eqn:Hr.
    2:{ assert (Heq : forall k,
          firstIndex keyOf k (rows ++ [r]) = firstIndex keyOf k rows).
        { intros k. rewrite firstIndex_snoc, Hr.
          destruct (firstIndex keyOf k rows); [reflexivity|].
          now destruct (decide (None = Some k)). }
        repeat split; try assumption.
        - rewrite Heq. apply Hmem.
        - rewrite Heq. apply Hmem.
        - intros k k' H. rewrite !Heq. now apply Hord. }
    destruct (decide (k0 ∈ JSMap.keys m)) as [Hin|Hin].
    + assert (Heq : forall k,
        firstIndex keyOf k (rows ++ [r]) = firstIndex keyOf k rows).
      { intros k. rewrite firstIndex_snoc, Hr.
        destruct (firstIndex keyOf k rows) eqn:E; [reflexivity|].
        destruct (decide (Some k0 = Some k)) as [[= ->]|]; [|reflexivity].
        apply Hmem in Hin. rewrite E in Hin. now destruct Hin. }
      repeat split; try assumption.
      * rewrite Heq. apply Hmem.
      * rewrite Heq. apply Hmem.
      * intros k k' H. rewrite !Heq. now apply Hord.
    + assert (Hnone : firstIndex keyOf k0 rows = None).
      { destruct (firstIndex keyOf k0 rows) eqn:E; [|reflexivity].
        elim Hin. apply Hmem. eauto. }
      assert (Hk0 : firstIndex keyOf k0 (rows ++ [r]) = Some (length rows)).
      { rewrite firstIndex_snoc, Hnone, Hr. now rewrite decide_True. }
      repeat split.
      * apply NoDup_app. repeat split; [assumption| |apply NoDup_singleton].
        intros k Hk Hk'. apply list_elem_of_singleton in Hk'. now subst.
      * intros Hk. apply elem_of_app in Hk as [Hk|Hk].
        -- rewrite Hsame; now apply Hmem.
        -- apply list_elem_of_singleton in Hk. subst k. rewrite Hk0. eauto.
      * intros Hk. rewrite firstIndex_snoc in Hk.
        destruct (firstIndex keyOf k rows) eqn:E.
        -- apply elem_of_app. left. apply Hmem. rewrite E. eauto.
        -- rewrite Hr in Hk.
           destruct (decide (Some k0 = Some k)) as [[= ->]|].
           ++ apply elem_of_app. right. now left.
           ++ now destruct Hk.
      * intros k k' H. apply before_app_inv in H as [H|[Hk ->]].
        -- destruct (Hord _ _ H) as (p & q & Hp & Hq & Hpq).
           exists p, q. rewrite !Hsame by (rewrite ?Hp, ?Hq; eauto). auto.
        -- apply Hmem in Hk as [p Hp]. exists p, (length rows).
           rewrite Hsame by (rewrite Hp; eauto).
           split; [assumption|]. split; [assumption|].
           eapply firstIndex_lt; eauto.
Qed.
End KeyOrder.

Lemma before_fmap {A B} (f : A -> B) (a b : A) (l : list A) :
  before a b l -> before (f a) (f b) (f <$> l).
Proof.
  intros (i & j & Hlt & Hi & Hj). exists i, j.
  rewrite !list_lookup_fmap, Hi, Hj. auto.
Qed.

Lemma before_take {A} (n : nat) (a b : A) (l : list A) :
  before a b (take n l) -> before a b l.
Proof.
  intros (i & j & Hlt & Hi & Hj). exists i, j.
  apply lookup_take_Some in Hi as [Hi _].
  apply lookup_take_Some in Hj as [Hj _]. auto.
Qed.

(** Sorting entries by descending count, when the entries come in the order
    of the first rows of their keys. *)
Section RankFacts.
Context {E : Type} (keyE : E -> string) (cnt : E -> nat).
Variable keyOf : DownloadRow -> option string.

Lemma sort_ranked rows (entries : list E) :
  keysInRowOrder keyOf rows (keyE <$> entries) ->
  rankedInRowOrder keyE cnt keyOf rows (JSArray.sort (descendingBy cnt) entries).
Proof.
  intros (_ & _ & Hord) a b H. split.
  - apply sort_before in H; unfold descendingBy in *; [lia | intros; lia ..].
  - intros Heq. apply Hord. apply before_fmap.
    apply (sort_stable (descendingBy cnt)); [assumption|]. unfold descendingBy. lia.
Qed.

Lemma sort_top (entries : list E) n a b :
  a ∈ take n (JSArray.sort (descendingBy cnt) entries) ->
  b ∈ entries -> b ∉ take n (JSArray.sort (descendingBy cnt) entries) ->
  cnt b <= cnt a.
Proof.
  intros Ha Hb Hnb.
  apply elem_of_take in Ha as (i & Hi & Hin).
  apply (sort_elem_of (descendingBy cnt)) in Hb.
  apply list_elem_of_lookup_1 in Hb as [j Hj].
  assert (n <= j).
  { destruct (decide (n <= j)); [assumption|]. elim Hnb.
    apply elem_of_take. exists j. split; [assumption | lia]. }
  assert (Hbef : before a b (JSArray.sort (descendingBy cnt) entries)).
  { exists i, j. split; [lia | auto]. }
  apply sort_before in Hbef; unfold descendingBy in *; [lia | intros; lia ..].
Qed.
End RankFacts.

Section CountFacts.
Variable prop : DownloadRow -> option string.
Implicit Types (rows : list DownloadRow) (k : string).

Lemma countStep_keys (m : list (string * nat)) r :
  JSMap.keys (countStep prop m r)
  = match groupKey prop r with
    | None => JSMap.keys m
    | Some k => if decide (k ∈ JSMap.keys m) then JSMap.keys m
                else JSMap.keys m ++ [k]
    end.
Proof.
  unfold countStep, groupKey. destruct (prop r) as [k|]; [|reflexivity].
  destruct (JS.truthy k); [apply keys_set | reflexivity].
Qed.

Lemma countMap_keys rows :
  keysInRowOrder (groupKey prop) rows (JSMap.keys (countMap prop rows)).
Proof. apply fold_keys. apply countStep_keys. Qed.

Lemma countMap_snoc rows r :
  countMap prop (rows ++ [r]) = countStep prop (countMap prop rows) r.
Proof. unfold countMap. now rewrite fold_left_app. Qed.

Lemma countStep_get (m : list (string * nat)) r k :
  default 0 (JSMap.get k (countStep prop m r))
  = default 0 (JSMap.get k m)
    + (if decide (groupKey prop r = Some k) then 1 else 0).
Proof.
  unfold countStep, groupKey. destruct (prop r) as [k0|].
  2:{ rewrite decide_False by discriminate. lia. }
  destruct (JS.truthy k0).
  2:{ rewrite decide_False by discriminate. lia. }
  destruct (decide (Some k0 = Some k)) as [[= ->]|Hne].
  - rewrite get_set_eq. reflexivity.
  - rewrite get_set_ne by congruence. lia.
Qed.

Lemma countMap_get rows k :
  default 0 (JSMap.get k (countMap prop rows))
  = occurrences (groupKey prop) k rows.
Proof.
  induction rows as [|r rows IH] using rev_ind; [reflexivity|].
  now rewrite countMap_snoc, countStep_get, occurrences_snoc, IH.
Qed.

Lemma countMap_elem_of rows k c :
  (k, c) ∈ countMap prop rows ->
  c = occurrences (groupKey prop) k rows /\ 0 < c.
Proof.
  intros H. destruct (countMap_keys rows) as (Hnd & Hmem & _).
  assert (Hk : k ∈ JSMap.keys (countMap prop rows)).
  { change k with ((k, c).1). now apply list_elem_of_fmap_2. }
  apply elem_of_get in H; [|assumption].
  pose proof (countMap_get rows k) as Hc. rewrite H in Hc. cbn in Hc.
  split; [assumption|]. rewrite Hc. apply occurrences_pos. now apply Hmem.
Qed.

Lemma entry_keys n (m : list (string * nat)) :
  CategoryStat.key <$> (categoryEntry n <$> m) = JSMap.keys m.
Proof.
  unfold JSMap.keys. induction m as [|e m IH]; cbn; [reflexivity|].
  now rewrite IH.
Qed.

Lemma ranked_keys rows :
  CategoryStat.key <$> ranked prop rows
  ≡ₚ JSMap.keys (countMap prop rows).
Proof.
  unfold ranked. rewrite sort_Permutation. now rewrite entry_keys.
Qed.

Lemma ranked_distinct rows ks :
  distinctKeys (groupKey prop) rows ks ->
  CategoryStat.key <$> ranked prop rows ≡ₚ ks.
Proof.
  intros [Hnd Hks]. rewrite ranked_keys.
  destruct (countMap_keys rows) as (Hnd' & Hmem & _).
  apply NoDup_Permutation; [assumption..|].
  intros k. now rewrite Hmem, Hks, occurrences_pos.
Qed.

Lemma ranked_entry rows e :
  e ∈ ranked prop rows ->
  CategoryStat.count e
    = occurrences (groupKey prop) (CategoryStat.key e) rows /\
  0 < CategoryStat.count e /\
  CategoryStat.percentage e
    = percentageOf (CategoryStat.count e) (length rows).
Proof.
  unfold ranked. rewrite sort_elem_of.
  intros H. apply list_elem_of_fmap in H as ([k c] & -> & H). cbn.
  apply countMap_elem_of in H as [H1 H2]. auto.
Qed.

Lemma ranked_order rows :
  rankedInRowOrder CategoryStat.key CategoryStat.count (groupKey prop) rows
    (ranked prop rows).
Proof.
  unfold ranked.
  apply (sort_ranked CategoryStat.key CategoryStat.count).
  rewrite entry_keys. apply countMap_keys.
Qed.
End CountFacts.

Lemma episodeStep_keys (m : list (string * Stats.t)) r :
  JSMap.keys (episodeStep m r)
  = match Some (itemId r) with
    | None => JSMap.keys m
    | Some k => if decide (k ∈ JSMap.keys m) then JSMap.keys m
                else JSMap.keys m ++ [k]
    end.
Proof.
  unfold episodeStep. set (id := itemId r).
  destruct (decide (id ∈ JSMap.keys m)) as [Hin|Hin].
  - rewrite (proj2 (has_true m id) Hin).
    destruct (JSMap.get id m); [|reflexivity]. now apply set_present.
  - assert (JSMap.has id m = false) as ->.
    { destruct (JSMap.has id m) eqn:E; [|reflexivity].
      now apply has_true in E. }
    rewrite get_set_eq, set_present.
    + rewrite keys_set. now rewrite decide_False.
    + eapply get_Some_keys. apply get_set_eq.
Qed.

Lemma episodeMap_keys rows :
  keysInRowOrder (fun r => Some (itemId r)) rows
    (JSMap.keys (episodeMap rows)).
Proof. apply fold_keys. apply episodeStep_keys. Qed.

Lemma episodeEntry_keys titles (m : list (string * Stats.t)) :
  EpisodeStat.episodeId <$> (episodeEntry titles <$> m) = JSMap.keys m.
Proof.
  unfold JSMap.keys. induction m as [|e m IH]; cbn; [reflexivity|].
  now rewrite IH.
Qed.

(* ====================================================================== *)
(** ** Results: rankings *)
(* ====================================================================== *)

Example ranked_countries :
  ranked countryCode
    [ sampleRow "2024-01-01T00:00:00Z" None (Some "CA") None;
      sampleRow "2024-01-01T00:00:00Z" None (Some "US") None;
      sampleRow "2024-01-01T00:00:00Z" None (Some "US") None;
      sampleRow "2024-01-01T00:00:00Z" None (Some "DE") None;
      sampleRow "2024-01-01T00:00:00Z" None None None ]
  = [ CategoryStat.mk "US" 2 (percentageOf 2 5);
      CategoryStat.mk "CA" 1 (percentageOf 1 5);
      CategoryStat.mk "DE" 1 (percentageOf 1 5) ].
Proof. reflexivity. Qed.

(** C5: each of [episodeStats], [topCountries], [topApps] and [topDevices]
    is in descending order of its count, and two entries with the same count
    stand in the order in which their keys first occur in the rows. *)
Theorem C5_rankings_descending_stable
    (getTime : string -> option Z) (clock : Clock)
    (titles : list (string * string)) (rows : list DownloadRow) :
  rankedInRowOrder EpisodeStat.episodeId EpisodeStat.downloads
    (fun r => Some (itemId r)) rows
    (episodeStats (aggregate getTime clock titles rows)) /\
  rankedInRowOrder CategoryStat.key CategoryStat.count
    (groupKey countryCode) rows
    (topCountries (aggregate getTime clock titles rows)) /\
  rankedInRowOrder CategoryStat.key CategoryStat.count
    (groupKey agentName) rows
    (topApps (aggregate getTime clock titles rows)) /\
  rankedInRowOrder CategoryStat.key CategoryStat.count
    (groupKey deviceType) rows
    (topDevices (aggregate getTime clock titles rows)).
Proof.
  cbn [aggregate episodeStats topCountries topApps topDevices].
  split; [|split; [|split]].
  - apply (sort_ranked EpisodeStat.episodeId EpisodeStat.downloads).
    rewrite episodeEntry_keys. apply episodeMap_keys.
  - intros a b H. apply before_take in H. now apply ranked_order.
  - intros a b H. apply before_take in H. now apply ranked_order.
  - apply ranked_order.
Qed.

(** The capped list of a property: at most 10 entries, exactly
    [min 10 n] when [n] distinct keys occur; its entries carry the row counts
    of distinct keys, and no key left out has a higher row count than an
    entry kept. *)
Lemma capped_top prop rows :
  let top := JSArray.slice0 10 (ranked prop rows) in
  length top <= 10 /\
  (forall ks, distinctKeys (groupKey prop) rows ks ->
     length top = min 10 (length ks)) /\
  NoDup (CategoryStat.key <$> top) /\
  (forall e, e ∈ top ->
     CategoryStat.count e
       = occurrences (groupKey prop) (CategoryStat.key e) rows /\
     0 < CategoryStat.count e) /\
  (forall e k, e ∈ top -> k ∉ CategoryStat.key <$> top ->
     occurrences (groupKey prop) k rows <= CategoryStat.count e).
Proof.
  unfold JSArray.slice0. cbn zeta.
  assert (Hnd : NoDup (CategoryStat.key <$> ranked prop rows)).
  { rewrite ranked_keys. apply countMap_keys. }
  split; [rewrite length_take; lia|]. split; [|split; [|split]].
  - intros ks Hks. rewrite length_take.
    rewrite <- (ranked_distinct prop rows ks Hks), length_fmap. reflexivity.
  - rewrite fmap_take. eapply sublist_NoDup; [exact Hnd|].
    apply sublist_take.
  - intros e He. apply elem_of_take in He as (i & Hi & _).
    apply list_elem_of_lookup_2 in Hi.
    destruct (ranked_entry prop rows e Hi) as (H1 & H2 & _). auto.
  - intros e k He Hk.
    destruct (Nat.eq_dec (occurrences (groupKey prop) k rows) 0) as [->|Hpos];
      [lia|].
    assert (Hin : k ∈ CategoryStat.key <$> ranked prop rows).
    { rewrite ranked_keys. apply countMap_keys. apply occurrences_pos. lia. }
    apply list_elem_of_fmap in Hin as (b & -> & Hb).
    destruct (ranked_entry prop rows b Hb) as (<- & _ & _).
    unfold ranked in *.
    apply (sort_top CategoryStat.count
             (categoryEntry (length rows) <$> countMap prop rows) 10 e b);
      [assumption| |].
    + exact (proj1 (sort_elem_of byCount _ _) Hb).
    + intros Hb'. apply Hk. now apply list_elem_of_fmap_2.
Qed.

(** C6: [topCountries] and [topApps] have at most 10 entries, exactly
    [min 10 n] when [n] distinct keys occur; the entries kept carry the row
    counts of distinct keys and no key left out has a higher row count than
    an entry kept (the cut comes after the sort).  [topDevices] has one
    entry for every device type that occurs. *)
Theorem C6_top_lists_capped
    (getTime : string -> option Z) (clock : Clock)
    (titles : list (string * string)) (rows : list DownloadRow) :
  let r := aggregate getTime clock titles rows in
  (length (topCountries r) <= 10 /\
   (forall ks, distinctKeys (groupKey countryCode) rows ks ->
      length (topCountries r) = min 10 (length ks)) /\
   NoDup (CategoryStat.key <$> topCountries r) /\
   (forall e, e ∈ topCountries r ->
      CategoryStat.count e
        = occurrences (groupKey countryCode) (CategoryStat.key e) rows /\
      0 < CategoryStat.count e) /\
   (forall e k, e ∈ topCountries r ->
      k ∉ CategoryStat.key <$> topCountries r ->
      occurrences (groupKey countryCode) k rows <= CategoryStat.count e)) /\
  (length (topApps r) <= 10 /\
   (forall ks, distinctKeys (groupKey agentName) rows ks ->
      length (topApps r) = min 10 (length ks)) /\
   NoDup (CategoryStat.key <$> topApps r) /\
   (forall e, e ∈ topApps r ->
      CategoryStat.count e
        = occurrences (groupKey agentName) (CategoryStat.key e) rows /\
      0 < CategoryStat.count e) /\
   (forall e k, e ∈ topApps r ->
      k ∉ CategoryStat.key <$> topApps r ->
      occurrences (groupKey agentName) k rows <= CategoryStat.count e)) /\
  (forall ks, distinctKeys (groupKey deviceType) rows ks ->
     CategoryStat.key <$> topDevices r ≡ₚ ks).
Proof.
  cbn zeta. cbn [aggregate topCountries topApps topDevices].
  split; [apply capped_top|]. split; [apply capped_top|].
  apply ranked_distinct.
Qed.

Example sampleGetTime_epoch :
  sampleGetTime "1970-01-01T00:00:00Z" = Some 0%Z.
Proof. reflexivity. Qed.

Example sampleGetTime_now :
  sampleGetTime "2024-03-15T12:00:00Z" = Some sampleNow.
Proof. reflexivity. Qed.

Example sampleGetTime_invalid : sampleGetTime "yesterday" = None.
Proof. reflexivity. Qed.

(* ====================================================================== *)
(** ** Results: totals and rolling windows *)
(* ====================================================================== *)






Lemma useOP3Analytics_rows getTime toISOString startOfMonth fetchDownloads
    timeRange clock episodes rows :
  fetchDownloads (requestDates toISOString startOfMonth timeRange clock).1
                 (requestDates toISOString startOfMonth timeRange clock).2
    = Ok rows ->
  useOP3Analytics getTime toISOString startOfMonth fetchDownloads
    timeRange clock episodes
  = aggregate getTime clock (episodeTitleMap episodes) (default [] rows).
Proof.
  unfold useOP3Analytics.
  destruct (requestDates toISOString startOfMonth timeRange clock)
    as [startDate endDate]; cbn [fst snd].
  now intros ->.
Qed.

Example sampleToISOString_now :
  sampleToISOString sampleNow = "2024-03-15T12:00:00.000Z".
Proof. reflexivity. Qed.

Example requestDates_by_range :
  requestDates sampleToISOString sampleStartOfMonth Range7d sampleClock
  = ("2024-03-08", "2024-03-15") /\
  requestDates sampleToISOString sampleStartOfMonth Range30d sampleClock
  = ("2024-02-14", "2024-03-15") /\
  requestDates sampleToISOString sampleStartOfMonth Range90d sampleClock
  = ("2023-12-16", "2024-03-15") /\
  requestDates sampleToISOString sampleStartOfMonth RangeMonth sampleClock
  = ("2024-03-01", "2024-03-15").
Proof. repeat split; reflexivity. Qed.




(** C7: for every range, when the request returns no rows (a missing or an
    empty [rows] array) the result is the all-zero result: the four scalars
    are 0 and the five sequences are empty.  The result is a value in every
    case; the aggregation has no failure outcome. *)
Theorem C7_empty_rows_empty_result
    (getTime : string -> option Z) (toISOString : Z -> string)
    (startOfMonth : Z -> Z)
    (fetchDownloads : string -> string -> DownloadsResponse)
    (timeRange : TimeRange) (clock : Clock)
    (episodes : list Episode.t) (rows : option (list DownloadRow)) :
  fetchDownloads (requestDates toISOString startOfMonth timeRange clock).1
                 (requestDates toISOString startOfMonth timeRange clock).2
    = Ok rows ->
  rows = None \/ rows = Some [] ->
  useOP3Analytics getTime toISOString startOfMonth fetchDownloads
    timeRange clock episodes
  = {| totalDownloads := 0; uniqueAudience := 0;
       downloads7Days := 0; downloads30Days := 0;
       episodeStats := []; topCountries := []; topApps := [];
       topDevices := []; downloadsOverTime := [] |}.
Proof.
  intros H Hrows. rewrite (useOP3Analytics_rows _ _ _ _ _ _ _ _ H).
  destruct Hrows as [-> | ->]; reflexivity.
Qed.

Lemma C7_empty_rows_empty_result_witness :
  useOP3Analytics sampleGetTime (fun _ => "2024-03-15T12:00:00.000Z")
    (fun t => t) (fun _ _ => Ok (Some [])) Range90d sampleClock
    [Episode.mk "e1" (Some "Pilot")]
  = {| totalDownloads := 0; uniqueAudience := 0;
       downloads7Days := 0; downloads30Days := 0;
       episodeStats := []; topCountries := []; topApps := [];
       topDevices := []; downloadsOverTime := [] |}.
Proof.
  exact (C7_empty_rows_empty_result sampleGetTime
           (fun _ => "2024-03-15T12:00:00.000Z") (fun t => t)
           (fun _ _ => Ok (Some [])) Range90d sampleClock
           [Episode.mk "e1" (Some "Pilot")] (Some []) eq_refl
           (or_intror eq_refl)).
Defined.

Lemma filter_length_insert {A} (f : A -> bool) (l1 l2 : list A) (x : A) :
  length (List.filter f (l1 ++ x :: l2))
  = length (List.filter f (l1 ++ l2)) + (if f x then 1 else 0).
Proof.
  rewrite !List.filter_app, !length_app. cbn [List.filter].
  destruct (f x); cbn [length]; lia.
Qed.

(** C8: the lower bound of the rolling windows is inclusive.  A row whose
    time is exactly now minus 7 days adds one to [downloads7Days]; a row one
    second (1000 ms) earlier adds nothing; and likewise for now minus 30 days
    and [downloads30Days]. *)
Theorem C8_rolling_bound_inclusive
    (getTime : string -> option Z) (clock : Clock)
    (titles : list (string * string))
    (before after : list DownloadRow) (r : DownloadRow) (t : Z) :
  getTime (time r) = Some t ->
  let with_r := aggregate getTime clock titles (before ++ r :: after) in
  let without := aggregate getTime clock titles (before ++ after) in
  (t = (at7d clock - 7 * dayMs)%Z ->
   downloads7Days with_r = S (downloads7Days without)) /\
  (t = (at7d clock - 7 * dayMs - 1000)%Z ->
   downloads7Days with_r = downloads7Days without) /\
  (t = (at30d clock - 30 * dayMs)%Z ->
   downloads30Days with_r = S (downloads30Days without)) /\
  (t = (at30d clock - 30 * dayMs - 1000)%Z ->
   downloads30Days with_r = downloads30Days without).
Proof.
  intros Ht. cbn zeta. cbn [aggregate downloads7Days downloads30Days].
  rewrite !filter_length_insert. unfold since. rewrite Ht. unfold dayMs.
  repeat split; intros ->.
  - rewrite (proj2 (Z.leb_le _ _)) by lia. lia.
  - rewrite (proj2 (Z.leb_gt _ _)) by lia. lia.
  - rewrite (proj2 (Z.leb_le _ _)) by lia. lia.
  - rewrite (proj2 (Z.leb_gt _ _)) by lia. lia.
Qed.

Lemma C8_rolling_bound_inclusive_witness :
  let old := sampleRow "2024-01-01T12:00:00Z" None None None in
  let edge := sampleRow "2024-03-08T12:00:00Z" None None None in
  let late := sampleRow "2024-03-08T11:59:59Z" None None None in
  (sampleGetTime (time edge) = Some (at7d sampleClock - 7 * dayMs)%Z /\
   downloads7Days (aggregate sampleGetTime sampleClock [] [old; edge; old])
   = S (downloads7Days (aggregate sampleGetTime sampleClock [] [old; old])))
  /\
  (sampleGetTime (time late) = Some (at7d sampleClock - 7 * dayMs - 1000)%Z /\
   downloads7Days (aggregate sampleGetTime sampleClock [] [old; late; old])
   = downloads7Days (aggregate sampleGetTime sampleClock [] [old; old])).
Proof.
  intros old edge late. split; (split; [reflexivity|]).
  - exact (proj1 (C8_rolling_bound_inclusive sampleGetTime sampleClock []
                    [old] [old] edge (at7d sampleClock - 7 * dayMs)%Z
                    eq_refl)
                 eq_refl).
  - exact (proj1 (proj2 (C8_rolling_bound_inclusive sampleGetTime
                           sampleClock [] [old] [old] late
                           (at7d sampleClock - 7 * dayMs - 1000)%Z eq_refl))
                 eq_refl).
Defined.

(* ====================================================================== *)
(** ** Results: percentages *)
(* ====================================================================== *)


Example percentageOf_half : percentageOf 1 2 = 50%float.
Proof. reflexivity. Qed.

(** Two roundings: the quotient 7 / 25 is rounded to 0.28000000000000003,
    whose product with 100 is rounded again. *)
Example percentageOf_7_of_25 :
  percentageOf 7 25 = 0x1.c000000000001p+4%float /\
  PrimFloat.ltb 28%float (percentageOf 7 25) = true.
Proof. split; reflexivity. Qed.

#[local] Open Scope Q_scope.

Lemma exactShare_add a b n :
  exactShare (a + b) n == exactShare a n + exactShare b n.
Proof.
  unfold exactShare. rewrite Nat2Z.inj_add, inject_Z_plus.
  unfold Qdiv. ring.
Qed.

Lemma exactShare_nonneg a n : 0 <= exactShare a n.
Proof.
  unfold exactShare, Qdiv.
  apply Qmult_le_0_compat; [|discriminate].
  apply Qmult_le_0_compat.
  - change 0%Q with (inject_Z 0). rewrite <- Zle_Qle. lia.
  - apply Qinv_le_0_compat. change 0%Q with (inject_Z 0).
    rewrite <- Zle_Qle. lia.
Qed.

Lemma exactShare_pos c n :
  (0 < c)%nat -> (0 < n)%nat -> 0 < exactShare c n.
Proof.
  intros Hc Hn. unfold exactShare, Qdiv.
  apply Qmult_lt_0_compat; [|reflexivity].
  apply Qmult_lt_0_compat.
  - change 0%Q with (inject_Z 0). rewrite <- Zlt_Qlt. lia.
  - apply Qinv_lt_0_compat. change 0%Q with (inject_Z 0).
    rewrite <- Zlt_Qlt. lia.
Qed.

Lemma exactShare_mono a b n :
  (a <= b)%nat -> exactShare a n <= exactShare b n.
Proof.
  intros H. replace b with (a + (b - a))%nat by lia.
  rewrite exactShare_add. rewrite <- (Qplus_0_r (exactShare a n)) at 1.
  apply Qplus_le_compat; [apply Qle_refl | apply exactShare_nonneg].
Qed.


Lemma exactShare_all n : (0 < n)%nat -> exactShare n n == 100.
Proof.
  intros H. unfold exactShare. field.
  change 0%Q with (inject_Z 0). rewrite inject_Z_injective. lia.
Qed.
















Example topCountries_eleven_countries :
  let country c := sampleRow "2024-03-14T12:00:00Z" None (Some c) None in
  let rows := country <$> ["AT"; "BE"; "CA"; "DE"; "ES"; "FR"; "GB"; "IT";
                           "JP"; "NL"; "US"] in
  let r := aggregate sampleGetTime sampleClock [] rows in
  length (topCountries r) = 10%nat /\
  sumShares (totalDownloads r) (topCountries r) == exactShare 10 11 /\
  PrimFloat.ltb (sumPercentages (topCountries r)) 91%float = true.
Proof. vm_compute. repeat split; reflexivity. Qed.

(** Three rows with three device types: every row carries the property,
    the exact shares add up to 100, and the binary64 percentages
    (33.33333333333333 each) add up to 99.99999999999999, a little less. *)
Example topDevices_thirds :
  let device d :=
    mkRow "2024-03-14T12:00:00Z" "https://example.com/a.mp3" None (Some d)
      None None None None in
  let rows := device <$> ["mobile"; "computer"; "tablet"] in
  let r := aggregate sampleGetTime sampleClock [] rows in
  sumShares (totalDownloads r) (topDevices r) == 100 /\
  PrimFloat.ltb (sumPercentages (topDevices r)) 100 = true /\
  PrimFloat.ltb 99.9990234375 (sumPercentages (topDevices r)) = true.
Proof. vm_compute. repeat split; reflexivity. Qed.




(* ====================================================================== *)
(** ** Facts about the time series *)
(* ====================================================================== *)

#[local] Close Scope Q_scope.

Lemma compareStrings_lt a b :
  (JS.compareStrings a b < 0)%Z <-> String_as_OT.lt a b.
Proof.
  rewrite <- String_as_OT.cmp_lt. unfold JS.compareStrings, String_as_OT.cmp.
  destruct (String.compare a b); split; (lia || discriminate || reflexivity).
Qed.

Lemma compareStrings_eq a b : JS.compareStrings a b = 0%Z <-> a = b.
Proof.
  rewrite <- String_as_OT.cmp_eq. unfold JS.compareStrings, String_as_OT.cmp.
  destruct (String.compare a b); split; (lia || discriminate || reflexivity).
Qed.

Lemma compareStrings_antisym a b :
  JS.compareStrings a b = (- JS.compareStrings b a)%Z.
Proof.
  unfold JS.compareStrings. rewrite String.compare_antisym.
  now destruct (String.compare b a).
Qed.

Lemma compareStrings_le a b :
  (JS.compareStrings a b <= 0)%Z <-> a = b \/ String_as_OT.lt a b.
Proof.
  rewrite <- compareStrings_lt, <- compareStrings_eq. lia.
Qed.

Lemma compareStrings_trans a b c :
  (JS.compareStrings a b <= 0)%Z -> (JS.compareStrings b c <= 0)%Z ->
  (JS.compareStrings a c <= 0)%Z.
Proof.
  rewrite !compareStrings_le. intros [->|H1] [->|H2]; auto.
  right. eapply String_as_OT.lt_trans; eauto.
Qed.

Lemma compareStrings_total a b :
  (0 < JS.compareStrings a b)%Z -> (JS.compareStrings b a <= 0)%Z.
Proof. rewrite (compareStrings_antisym b a). lia. Qed.

Lemma NoDup_keys_set {V} (m : list (string * V)) k v :
  NoDup (JSMap.keys m) -> NoDup (JSMap.keys (JSMap.set k v m)).
Proof.
  intros H. rewrite keys_set. destruct (decide (k ∈ JSMap.keys m)); [easy|].
  apply NoDup_app. repeat split; [assumption| |apply NoDup_singleton].
  intros x Hx Hx'. apply list_elem_of_singleton in Hx'. now subst.
Qed.

Lemma get_set {V} (m : list (string * V)) k k' v :
  JSMap.get k' (JSMap.set k v m)
  = if decide (k' = k) then Some v else JSMap.get k' m.
Proof.
  destruct (decide (k' = k)) as [->|Hne].
  - apply get_set_eq.
  - apply get_set_ne. congruence.
Qed.

(** *** The daily map *)

Lemma dailyStep_get m r d :
  JSMap.get d (dailyStep m r)
  = if decide (d = rowDate r)
    then
      let dayMap := default [] (JSMap.get (rowDate r) m) in
      Some (JSMap.set (itemId r)
              (default 0 (JSMap.get (itemId r) dayMap) + 1) dayMap)
    else JSMap.get d m.
Proof.
  unfold dailyStep. unfold JSMap.has.
  destruct (JSMap.get (rowDate r) m) as [dayMap|] eqn:E.
  - rewrite E. cbn [default]. apply get_set.
  - rewrite get_set_eq. cbn [default]. rewrite get_set.
    destruct (decide (d = rowDate r)); [reflexivity|].
    apply get_set_ne. congruence.
Qed.

Lemma dailyStep_keys (m : list (string * list (string * nat))) r :
  JSMap.keys (dailyStep m r)
  = match Some (rowDate r) with
    | None => JSMap.keys m
    | Some k => if decide (k ∈ JSMap.keys m) then JSMap.keys m
                else JSMap.keys m ++ [k]
    end.
Proof.
  unfold dailyStep. set (date := rowDate r).
  destruct (decide (date ∈ JSMap.keys m)) as [Hin|Hin].
  - rewrite (proj2 (has_true m date) Hin).
    destruct (JSMap.get date m); [|reflexivity]. now apply set_present.
  - assert (JSMap.has date m = false) as ->.
    { destruct (JSMap.has date m) eqn:E; [|reflexivity].
      now apply has_true in E. }
    rewrite get_set_eq, set_present.
    + rewrite keys_set. now rewrite decide_False.
    + eapply get_Some_keys. apply get_set_eq.
Qed.

Lemma episodeDailyMap_keys rows :
  keysInRowOrder (fun r => Some (rowDate r)) rows
    (JSMap.keys (episodeDailyMap rows)).
Proof. apply fold_keys. apply dailyStep_keys. Qed.

Lemma episodeDailyMap_snoc rows r :
  episodeDailyMap (rows ++ [r]) = dailyStep (episodeDailyMap rows) r.
Proof. unfold episodeDailyMap. now rewrite fold_left_app. Qed.

(** Every row is counted in the map of its date, under its item. *)
Lemma episodeDailyMap_row rows r :
  r ∈ rows ->
  exists dayMap, JSMap.get (rowDate r) (episodeDailyMap rows) = Some dayMap /\
                 itemId r ∈ JSMap.keys dayMap.
Proof.
  induction rows as [|r0 rows IH] using rev_ind; intros Hin.
  - now apply elem_of_nil in Hin.
  - rewrite episodeDailyMap_snoc, dailyStep_get.
    destruct (decide (rowDate r = rowDate r0)) as [Hd|Hd].
    + eexists. split; [reflexivity|]. cbn zeta. rewrite keys_set.
      destruct (decide (itemId r0 ∈ _)) as [H0|H0].
      * apply elem_of_app in Hin as [Hin|Hin].
        -- destruct (IH Hin) as (dayMap & Hg & Hk).
           rewrite <- Hd, Hg. exact Hk.
        -- apply list_elem_of_singleton in Hin. now subst.
      * apply elem_of_app in Hin as [Hin|Hin].
        -- destruct (IH Hin) as (dayMap & Hg & Hk).
           apply elem_of_app. left. rewrite <- Hd, Hg. exact Hk.
        -- apply list_elem_of_singleton in Hin. subst.
           apply elem_of_app. right. now left.
    + apply elem_of_app in Hin as [Hin|Hin]; [auto|].
      apply list_elem_of_singleton in Hin. now subst.
Qed.

(** Every entry of a day's map comes from a row of that date and item. *)
Lemma episodeDailyMap_entry rows d dayMap id :
  JSMap.get d (episodeDailyMap rows) = Some dayMap ->
  id ∈ JSMap.keys dayMap ->
  exists r, r ∈ rows /\ rowDate r = d /\ itemId r = id.
Proof.
  revert dayMap; induction rows as [|r0 rows IH] using rev_ind;
    intros dayMap Hg Hid.
  - discriminate.
  - rewrite episodeDailyMap_snoc, dailyStep_get in Hg.
    destruct (decide (d = rowDate r0)) as [Hd|Hd].
    + injection Hg as <-. cbn zeta in Hid. rewrite keys_set in Hid.
      assert (Hcase : id = itemId r0 \/
                id ∈ JSMap.keys
                       (default [] (JSMap.get (rowDate r0)
                                      (episodeDailyMap rows)))).
      { destruct (decide (itemId r0 ∈ _)); [now right|].
        apply elem_of_app in Hid as [?|Hid]; [now right|].
        apply list_elem_of_singleton in Hid. now left. }
      destruct Hcase as [->|Hold].
      * exists r0. split; [apply elem_of_app; right; now left | auto].
      * destruct (JSMap.get (rowDate r0) (episodeDailyMap rows))
          as [dm|] eqn:E; cbn [default] in Hold.
        -- subst d. destruct (IH dm E Hold) as (r & Hr & H1 & H2).
           exists r. split; [apply elem_of_app; now left | auto].
        -- now apply elem_of_nil in Hold.
    + destruct (IH dayMap Hg Hid) as (r & Hr & H1 & H2).
      exists r. split; [apply elem_of_app; now left | auto].
Qed.

(** *** The set of episodes and the cumulative map *)

Lemma add_elem_of (x y : string) (s : list string) :
  x ∈ JSSet.add y s <-> x = y \/ x ∈ s.
Proof.
  unfold JSSet.add. destruct (decide (y ∈ s)).
  - split; [now right | intros [->|?]; assumption].
  - rewrite elem_of_app, list_elem_of_singleton. tauto.
Qed.

Lemma fold_add_elem_of (day : list (string * nat)) (s : list string) x :
  x ∈ s \/ x ∈ JSMap.keys day ->
  x ∈ fold_left (fun s' e => JSSet.add e.1 s') day s.
Proof.
  unfold JSMap.keys. revert s; induction day as [|e day IH]; cbn; intros s H.
  - destruct H as [H|H]; [assumption | now apply elem_of_nil in H].
  - apply IH. destruct H as [H|H].
    + left. apply add_elem_of. now right.
    + apply elem_of_cons in H as [->|H]; [|now right].
      left. apply add_elem_of. now left.
Qed.

Lemma fold_days_elem_of (daily : list (string * list (string * nat)))
    (s : list string) x :
  x ∈ s \/ (exists e, e ∈ daily /\ x ∈ JSMap.keys e.2) ->
  x ∈ fold_left
        (fun s day => fold_left (fun s' e => JSSet.add e.1 s') day.2 s)
        daily s.
Proof.
  revert s; induction daily as [|day daily IH]; cbn; intros s H.
  - destruct H as [H|(e & H & _)]; [assumption | now apply elem_of_nil in H].
  - apply IH. destruct H as [H|(e & H & Hx)].
    + left. apply fold_add_elem_of. now left.
    + apply elem_of_cons in H as [->|H]; [|right; eauto].
      left. apply fold_add_elem_of. now right.
Qed.

Lemma allEpisodeIds_row rows r : r ∈ rows -> itemId r ∈ allEpisodeIds rows.
Proof.
  intros Hr. destruct (episodeDailyMap_row rows r Hr) as (dayMap & Hg & Hk).
  apply fold_days_elem_of. right. exists (rowDate r, dayMap).
  split; [now apply get_elem_of | exact Hk].
Qed.

Lemma initial_get (ids : list string) (m0 : list (string * nat)) id :
  JSMap.get id (fold_left (fun m i => JSMap.set i 0 m) ids m0)
  = if decide (id ∈ ids) then Some 0 else JSMap.get id m0.
Proof.
  revert m0; induction ids as [|i ids IH]; intros m0; cbn.
  - rewrite decide_False; [reflexivity | apply not_elem_of_nil].
  - rewrite IH. destruct (decide (id ∈ ids)) as [H|H].
    + rewrite decide_True; [reflexivity | now right].
    + rewrite get_set. destruct (decide (id = i)) as [->|Hne].
      * rewrite decide_True; [reflexivity | now left].
      * rewrite decide_False; [reflexivity|].
        rewrite not_elem_of_cons. tauto.
Qed.

Lemma initial_NoDup (ids : list string) (m0 : list (string * nat)) :
  NoDup (JSMap.keys m0) ->
  NoDup (JSMap.keys (fold_left (fun m i => JSMap.set i 0 m) ids m0)).
Proof.
  revert m0; induction ids as [|i ids IH]; intros m0 H; cbn; [assumption|].
  apply IH. now apply NoDup_keys_set.
Qed.

Lemma addDay_NoDup dayData cumulative :
  NoDup (JSMap.keys cumulative) ->
  NoDup (JSMap.keys (addDay dayData cumulative)).
Proof.
  unfold addDay. revert cumulative.
  induction dayData as [|e dayData IH]; intros c H; cbn; [assumption|].
  apply IH. now apply NoDup_keys_set.
Qed.

(** A day never lowers a total and never drops an episode. *)
Lemma addDay_mono dayData cumulative id v :
  JSMap.get id cumulative = Some v ->
  exists v', JSMap.get id (addDay dayData cumulative) = Some v' /\ v <= v'.
Proof.
  unfold addDay. revert cumulative v.
  induction dayData as [|e dayData IH]; intros c v H; cbn; [eauto|].
  destruct (decide (id = e.1)) as [->|Hne].
  - edestruct (IH (JSMap.set e.1 (default 0 (JSMap.get e.1 c) + e.2) c))
      as (v' & Hv' & Hle).
    + apply get_set_eq.
    + exists v'. split; [assumption|]. rewrite H in Hle. cbn in Hle. lia.
  - apply IH. rewrite get_set_ne by congruence. assumption.
Qed.

(** A day leaves the episodes it does not mention as they are. *)
Lemma addDay_other dayData cumulative id :
  id ∉ JSMap.keys dayData ->
  JSMap.get id (addDay dayData cumulative) = JSMap.get id cumulative.
Proof.
  unfold addDay, JSMap.keys. revert cumulative.
  induction dayData as [|e dayData IH]; intros c H; cbn; [reflexivity|].
  cbn in H. apply not_elem_of_cons in H as [Hne H].
  rewrite IH by assumption. apply get_set_ne. congruence.
Qed.

Lemma cumulativeAfter_NoDup daily cumulative dates :
  NoDup (JSMap.keys cumulative) ->
  NoDup (JSMap.keys (cumulativeAfter daily cumulative dates)).
Proof.
  unfold cumulativeAfter. revert cumulative.
  induction dates as [|d dates IH]; intros c H; cbn; [assumption|].
  apply IH. now apply addDay_NoDup.
Qed.

Lemma cumulativeAfter_mono daily cumulative dates id v :
  JSMap.get id cumulative = Some v ->
  exists v', JSMap.get id (cumulativeAfter daily cumulative dates) = Some v'
             /\ v <= v'.
Proof.
  unfold cumulativeAfter. revert cumulative v.
  induction dates as [|d dates IH]; intros c v H; cbn; [eauto|].
  destruct (addDay_mono (default [] (JSMap.get d daily)) c id v H)
    as (v1 & H1 & Hle1).
  destruct (IH _ _ H1) as (v2 & H2 & Hle2).
  exists v2. split; [assumption | lia].
Qed.

Lemma cumulativeAfter_other daily cumulative dates id :
  (forall d, d ∈ dates -> id ∉ JSMap.keys (default [] (JSMap.get d daily))) ->
  JSMap.get id (cumulativeAfter daily cumulative dates)
  = JSMap.get id cumulative.
Proof.
  unfold cumulativeAfter. revert cumulative.
  induction dates as [|d dates IH]; intros c H; cbn; [reflexivity|].
  rewrite IH by (intros d' Hd'; apply H; now right).
  apply addDay_other. apply H. now left.
Qed.

Lemma cumulativeAfter_app daily cumulative dates dates' :
  cumulativeAfter daily cumulative (dates ++ dates')
  = cumulativeAfter daily (cumulativeAfter daily cumulative dates) dates'.
Proof. unfold cumulativeAfter. apply fold_left_app. Qed.

(** *** Data points *)

Lemma setProperty_lookup_eq {V} (k : string) (v : V) (o : gmap string V) :
  k <> "__proto__" -> JSObject.setProperty k v o !! k = Some v.
Proof.
  intros Hk. unfold JSObject.setProperty. apply String.eqb_neq in Hk.
  rewrite Hk. apply lookup_insert_eq.
Qed.

Lemma setProperty_lookup_ne {V} (k id : string) (v : V) (o : gmap string V) :
  id <> k -> JSObject.setProperty k v o !! id = o !! id.
Proof.
  intros Hne. unfold JSObject.setProperty.
  destruct (String.eqb k "__proto__"); [reflexivity|].
  apply lookup_insert_ne. congruence.
Qed.

(** No assignment gives an object an own property named [__proto__]. *)
Lemma setProperty_lookup_proto {V} (k : string) (v : V) (o : gmap string V) :
  o !! "__proto__" = None -> JSObject.setProperty k v o !! "__proto__" = None.
Proof.
  intros Ho. unfold JSObject.setProperty.
  destruct (String.eqb k "__proto__") eqn:E; [exact Ho|].
  apply String.eqb_neq in E. rewrite lookup_insert_ne by assumption.
  exact Ho.
Qed.

Lemma dataPoint_fold (l : list (string * nat)) (o : gmap string Value) id :
  NoDup (JSMap.keys l) -> id <> "__proto__" ->
  fold_left (fun o e => JSObject.setProperty e.1 (Num e.2) o) l o !! id
  = match JSMap.get id l with
    | Some v => Some (Num v)
    | None => o !! id
    end.
Proof.
  unfold JSMap.keys. revert o; induction l as [|[k v] l IH]; intros o Hnd Hid.
  - reflexivity.
  - cbn in Hnd. apply NoDup_cons in Hnd as [Hk Hnd].
    cbn [fold_left JSMap.get fst snd]. rewrite IH by assumption.
    destruct (String.eqb id k) eqn:E.
    + apply String.eqb_eq in E; subst k.
      rewrite (proj2 (get_None l id) Hk). now apply setProperty_lookup_eq.
    + apply String.eqb_neq in E.
      destruct (JSMap.get id l); [reflexivity|].
      now apply setProperty_lookup_ne.
Qed.

Lemma dataPoint_lookup date cumulative id :
  NoDup (JSMap.keys cumulative) -> id <> "__proto__" ->
  dataPoint date cumulative !! id
  = match JSMap.get id cumulative with
    | Some v => Some (Num v)
    | None => if decide (id = "date") then Some (Str date) else None
    end.
Proof.
  intros H Hid. unfold dataPoint. rewrite dataPoint_fold by assumption.
  destruct (JSMap.get id cumulative); [reflexivity|].
  destruct (decide (id = "date")) as [->|Hne].
  - apply lookup_singleton_eq.
  - apply lookup_singleton_ne. congruence.
Qed.

(** A data point has no own property named [__proto__], whatever the
    episodes are called. *)
Lemma dataPoint_proto date cumulative :
  dataPoint date cumulative !! "__proto__" = None.
Proof.
  unfold dataPoint.
  assert (H : ({[ "date" := Str date ]} : gmap string Value) !! "__proto__"
              = None) by reflexivity.
  revert H. generalize ({[ "date" := Str date ]} : gmap string Value).
  induction cumulative as [|[k v] l IH]; intros o Ho; [exact Ho|].
  cbn [fold_left fst snd]. apply IH. now apply setProperty_lookup_proto.
Qed.

(** The point at position [i] shows the cumulative map as it is after the
    first [i + 1] dates. *)
Lemma buildPoints_lookup daily cumulative dates i :
  buildPoints daily cumulative dates !! i
  = (fun d => dataPoint d (cumulativeAfter daily cumulative
                             (take (S i) dates))) <$> dates !! i.
Proof.
  revert cumulative i; induction dates as [|d dates IH]; intros c i.
  - reflexivity.
  - destruct i as [|i]; cbn [buildPoints lookup list_lookup].
    + reflexivity.
    + rewrite IH. reflexivity.
Qed.

(** *** The dates *)

Lemma allDates_before rows a b :
  before a b (allDates rows) -> (JS.compareStrings a b <= 0)%Z.
Proof.
  unfold allDates. apply sort_before.
  - apply compareStrings_trans.
  - apply compareStrings_total.
Qed.

Lemma allDates_index_order rows i j di dj :
  allDates rows !! i = Some di -> allDates rows !! j = Some dj ->
  (JS.compareStrings di dj < 0)%Z -> i < j.
Proof.
  intros Hi Hj Hlt. destruct (lt_eq_lt_dec i j) as [[?| ->]|Hji].
  - assumption.
  - rewrite Hi in Hj. injection Hj as ->.
    assert (JS.compareStrings dj dj = 0%Z) by now apply compareStrings_eq.
    lia.
  - assert (Hb : before dj di (allDates rows)) by (exists j, i; auto).
    apply allDates_before in Hb. rewrite compareStrings_antisym in Hb. lia.
Qed.

Lemma allDates_prefix_le rows i d d' :
  allDates rows !! i = Some d -> d' ∈ take (S i) (allDates rows) ->
  (JS.compareStrings d' d <= 0)%Z.
Proof.
  intros Hi Hd'. apply elem_of_take in Hd' as (j & Hj & Hlt).
  destruct (decide (j = i)) as [->|Hne].
  - rewrite Hi in Hj. injection Hj as ->.
    assert (JS.compareStrings d' d' = 0%Z) by now apply compareStrings_eq.
    lia.
  - apply allDates_before with (rows := rows). exists j, i.
    split; [lia | auto].
Qed.

(** Every date of [allDates] has its map in [episodeDailyMap]. *)
Lemma allDates_present rows d :
  d ∈ allDates rows -> is_Some (JSMap.get d (episodeDailyMap rows)).
Proof.
  unfold allDates. rewrite sort_elem_of. intros Hd.
  destruct (JSMap.get d (episodeDailyMap rows)) eqn:E; [eauto|].
  apply get_None in E. tauto.
Qed.

(** *** The series *)

Lemma initialCumulative_NoDup ids : NoDup (JSMap.keys (initialCumulative ids)).
Proof. apply initial_NoDup. constructor. Qed.

Lemma initialCumulative_row rows r :
  r ∈ rows ->
  JSMap.get (itemId r) (initialCumulative (allEpisodeIds rows)) = Some 0.
Proof.
  intros Hr. unfold initialCumulative. rewrite initial_get.
  rewrite decide_True; [reflexivity | now apply allEpisodeIds_row].
Qed.

Lemma timeSeries_point rows i p :
  timeSeries rows !! i = Some p ->
  exists d cumulative,
    allDates rows !! i = Some d /\
    cumulative = cumulativeAfter (episodeDailyMap rows)
                   (initialCumulative (allEpisodeIds rows))
                   (take (S i) (allDates rows)) /\
    NoDup (JSMap.keys cumulative) /\
    p = dataPoint d cumulative.
Proof.
  unfold timeSeries. rewrite buildPoints_lookup. intros H.
  apply fmap_Some in H as (d & Hd & ->).
  exists d. eexists. split; [exact Hd|]. split; [reflexivity|].
  split; [|reflexivity].
  apply cumulativeAfter_NoDup, initialCumulative_NoDup.
Qed.

Lemma dataPoint_date d cumulative d' :
  NoDup (JSMap.keys cumulative) ->
  dataPoint d cumulative !! "date" = Some (Str d') -> d' = d.
Proof.
  intros Hnd. rewrite dataPoint_lookup by (assumption || discriminate).
  destruct (JSMap.get "date" cumulative); [discriminate|].
  rewrite decide_True by reflexivity. congruence.
Qed.

Lemma dataPoint_num d cumulative id n :
  NoDup (JSMap.keys cumulative) ->
  dataPoint d cumulative !! id = Some (Num n) ->
  JSMap.get id cumulative = Some n.
Proof.
  intros Hnd. destruct (decide (id = "__proto__")) as [->|Hid].
  { now rewrite dataPoint_proto. }
  rewrite dataPoint_lookup by assumption.
  destruct (JSMap.get id cumulative); [congruence|].
  destruct (decide (id = "date")); discriminate.
Qed.

(* ====================================================================== *)
(** ** Results: the cumulative time series *)
(* ====================================================================== *)

Example timeSeries_two_days :
  timeSeries
    [ sampleRow "2024-01-01T08:00:00Z" (Some "A") None None;
      sampleRow "2024-01-01T09:00:00Z" (Some "A") None None;
      sampleRow "2024-01-02T08:00:00Z" (Some "B") None None ]
  = [ {[ "date" := Str "2024-01-01"; "A" := Num 2; "B" := Num 0 ]};
      {[ "date" := Str "2024-01-02"; "A" := Num 2; "B" := Num 1 ]} ].
Proof. vm_compute. reflexivity. Qed.

(** The item of a row is a key of every point, with a number as its value,
    unless the item is "__proto__"; in a point whose date precedes the
    dates of all rows of that item the value is 0. *)
Lemma item_in_every_point (rows : list DownloadRow) (r : DownloadRow)
    (p : gmap string Value) :
  r ∈ rows -> itemId r <> "__proto__" -> p ∈ timeSeries rows ->
  (exists n, p !! itemId r = Some (Num n)) /\
  (forall d, p !! "date" = Some (Str d) ->
     (forall r', r' ∈ rows -> itemId r' = itemId r ->
        (JS.compareStrings d (rowDate r') < 0)%Z) ->
     p !! itemId r = Some (Num 0)).
Proof.
  intros Hr Hid Hp.
  apply list_elem_of_lookup_1 in Hp as [i Hi].
  destruct (timeSeries_point rows i p Hi) as (d & c & Hd & Hc & Hnd & ->).
  pose proof (initialCumulative_row rows r Hr) as H0.
  split.
  - destruct (cumulativeAfter_mono (episodeDailyMap rows) _
                (take (S i) (allDates rows)) _ _ H0) as (v & Hv & _).
    exists v. rewrite dataPoint_lookup by assumption.
    rewrite Hc, Hv. reflexivity.
  - intros d' Hdate Hlater.
    apply dataPoint_date in Hdate; [subst d'|assumption].
    rewrite dataPoint_lookup by assumption.
    rewrite Hc, cumulativeAfter_other, H0; [reflexivity|].
    intros d' Hd' Hkey.
    destruct (JSMap.get d' (episodeDailyMap rows)) as [dayMap|] eqn:E;
      cbn [default] in Hkey; [|now apply elem_of_nil in Hkey].
    destruct (episodeDailyMap_entry rows d' dayMap _ E Hkey)
      as (r' & Hr' & Hd'r & Hid').
    specialize (Hlater r' Hr' Hid'). rewrite Hd'r in Hlater.
    pose proof (allDates_prefix_le rows i d d' Hd Hd') as Hle.
    rewrite compareStrings_antisym in Hle. lia.
Qed.

(** C3 does not hold of the code: the item of a row whose [episodeId] is
    "__proto__" (or whose [url] is, when it has no [episodeId]) is a key of
    no point of [downloadsOverTime].  The episode is counted in its day
    bucket and in [episodeStats], which are [Map]s, but the data point is a
    plain object, and the assignment [dataPoint[episodeId] = cumulative]
    under that name stores nothing. *)
Theorem C3_proto_item_in_no_point
    (getTime : string -> option Z) (clock : Clock)
    (titles : list (string * string)) (rows : list DownloadRow)
    (r : DownloadRow) (p : gmap string Value) :
  r ∈ rows ->
  itemId r = "__proto__" ->
  p ∈ downloadsOverTime (aggregate getTime clock titles rows) ->
  p !! itemId r = None.
Proof.
  cbn [aggregate downloadsOverTime]. intros _ -> Hp.
  apply list_elem_of_lookup_1 in Hp as [i Hi].
  destruct (timeSeries_point rows i p Hi) as (d & c & _ & _ & _ & ->).
  apply dataPoint_proto.
Qed.

Lemma C3_proto_item_in_no_point_witness :
  let r := sampleRow "2024-01-02T08:00:00Z" (Some "__proto__") None None in
  let rows := [ sampleRow "2024-01-01T08:00:00Z" (Some "A") None None; r ] in
  let a := aggregate sampleGetTime sampleClock [] rows in
  let p : gmap string Value :=
    {[ "date" := Str "2024-01-02"; "A" := Num 1 ]} in
  JSMap.get "2024-01-02" (episodeDailyMap rows) = Some [("__proto__", 1)] /\
  EpisodeStat.episodeId <$> episodeStats a = ["A"; "__proto__"] /\
  downloadsOverTime a
  = [ {[ "date" := Str "2024-01-01"; "A" := Num 1 ]}; p ] /\
  p !! itemId r = None.
Proof.
  intros r rows a p.
  split; [reflexivity|]. split; [reflexivity|].
  split; [vm_compute; reflexivity|].
  refine (C3_proto_item_in_no_point sampleGetTime sampleClock [] rows r p
            _ eq_refl _).
  - right. left.
  - right. left.
Defined.

(** C4: along [downloadsOverTime] the cumulative value of an item never
    decreases: of two points with dates [d1 < d2], the value recorded for
    any item at [d1] is at most its value at [d2]. *)
Theorem C4_cumulative_monotone
    (getTime : string -> option Z) (clock : Clock)
    (titles : list (string * string)) (rows : list DownloadRow)
    (p1 p2 : gmap string Value) (d1 d2 item : string) (a b : nat) :
  p1 ∈ downloadsOverTime (aggregate getTime clock titles rows) ->
  p2 ∈ downloadsOverTime (aggregate getTime clock titles rows) ->
  p1 !! "date" = Some (Str d1) ->
  p2 !! "date" = Some (Str d2) ->
  (JS.compareStrings d1 d2 < 0)%Z ->
  p1 !! item = Some (Num a) ->
  p2 !! item = Some (Num b) ->
  a <= b.
Proof.
  cbn [aggregate downloadsOverTime]. intros Hp1 Hp2 Hd1 Hd2 Hlt Ha Hb.
  apply list_elem_of_lookup_1 in Hp1 as [i Hi].
  apply list_elem_of_lookup_1 in Hp2 as [j Hj].
  destruct (timeSeries_point rows i p1 Hi) as (e1 & c1 & He1 & Hc1 & Hn1 & ->).
  destruct (timeSeries_point rows j p2 Hj) as (e2 & c2 & He2 & Hc2 & Hn2 & ->).
  apply dataPoint_date in Hd1; [subst e1|assumption].
  apply dataPoint_date in Hd2; [subst e2|assumption].
  pose proof (allDates_index_order rows i j d1 d2 He1 He2 Hlt) as Hij.
  apply dataPoint_num in Ha; [|assumption].
  apply dataPoint_num in Hb; [|assumption].
  assert (Hsplit : take (S j) (allDates rows)
                   = take (S i) (allDates rows)
                     ++ take (S j - S i) (drop (S i) (allDates rows))).
  { rewrite <- (take_drop (S i) (allDates rows)) at 1.
    rewrite take_app. rewrite length_take.
    assert (S i <= length (allDates rows)).
    { apply lookup_lt_Some in He1. lia. }
    rewrite Nat.min_l by assumption. rewrite take_ge; [reflexivity|].
    rewrite length_take. lia. }
  rewrite Hsplit, cumulativeAfter_app, <- Hc1 in Hc2.
  destruct (cumulativeAfter_mono (episodeDailyMap rows) c1
              (take (S j - S i) (drop (S i) (allDates rows))) item a Ha)
    as (v & Hv & Hle).
  rewrite <- Hc2, Hb in Hv. injection Hv as <-. exact Hle.
Qed.

Lemma C4_cumulative_monotone_witness :
  let rows :=
    [ sampleRow "2024-01-01T08:00:00Z" (Some "A") None None;
      sampleRow "2024-01-02T08:00:00Z" (Some "A") None None;
      sampleRow "2024-01-02T09:00:00Z" (Some "B") None None ] in
  let p1 : gmap string Value :=
    {[ "date" := Str "2024-01-01"; "A" := Num 1; "B" := Num 0 ]} in
  let p2 : gmap string Value :=
    {[ "date" := Str "2024-01-02"; "A" := Num 2; "B" := Num 1 ]} in
  downloadsOverTime (aggregate sampleGetTime sampleClock [] rows) = [p1; p2]
  /\ 1 <= 2.
Proof.
  intros rows p1 p2. split; [vm_compute; reflexivity|].
  refine (C4_cumulative_monotone sampleGetTime sampleClock [] rows p1 p2
            "2024-01-01" "2024-01-02" "A" 1 2 _ _ _ _ _ _ _).
  - left.
  - right. left.
  - reflexivity.
  - reflexivity.
  - reflexivity.
  - reflexivity.
  - reflexivity.
Defined.

(** The keys of a category map are a list of the distinct keys of the rows,
    so the statements about [distinctKeys] always apply. *)


(* ====================================================================== *)
(** ** Further results: OP3 prefix *)
(* ====================================================================== *)

Lemma truthy_prefixed (s : string) : JS.truthy (OP3.OP3_PREFIX +:+ s) = true.
Proof. reflexivity. Qed.

(** X1: prefixing is idempotent: a URL that has been through [addOP3Prefix]
    is returned unchanged by a second call. *)
Theorem X1_addOP3Prefix_idempotent (url : string) :
  OP3.addOP3Prefix (OP3.addOP3Prefix url) = OP3.addOP3Prefix url.
Proof.
  unfold OP3.addOP3Prefix at 2.
  destruct (negb (JS.truthy url)) eqn:Ht.
  - unfold OP3.addOP3Prefix. now rewrite Ht.
  - destruct (JS.startsWith url OP3.OP3_PREFIX) eqn:Hp.
    + unfold OP3.addOP3Prefix. now rewrite Ht, Hp.
    + unfold OP3.addOP3Prefix.
      rewrite truthy_prefixed, startsWith_app, Ht, Hp. reflexivity.
Qed.

(** X2: after [addOP3Prefix] every URL but the empty one carries the OP3
    prefix; the empty string stays without it. *)
Theorem X2_hasOP3Prefix_after_add (url : string) :
  OP3.hasOP3Prefix (OP3.addOP3Prefix url) = JS.truthy url.
Proof.
  unfold OP3.hasOP3Prefix, OP3.addOP3Prefix.
  destruct url as [|c u]; [reflexivity|]. cbn [JS.truthy negb].
  destruct (JS.startsWith (String c u) OP3.OP3_PREFIX) eqn:Hp;
    [exact Hp | apply startsWith_app].
Qed.

(** X3: for a non-empty URL without the OP3 prefix, removing the prefix
    after adding it gives "https://" followed by the URL without its scheme.
    In particular an "http://" URL comes back as an "https://" URL, and a
    URL without a scheme gains "https://". *)
Theorem X3_remove_after_add_forces_https (url : string) :
  JS.truthy url = true ->
  OP3.hasOP3Prefix url = false ->
  OP3.removeOP3Prefix (OP3.addOP3Prefix url)
  = "https://" +:+ OP3.stripProtocol url.
Proof.
  unfold OP3.hasOP3Prefix. intros Ht Hp.
  unfold OP3.addOP3Prefix. rewrite Ht, Hp. cbn [negb].
  unfold OP3.removeOP3Prefix.
  now rewrite truthy_prefixed, startsWith_app, substring_app.
Qed.

Lemma X3_remove_after_add_forces_https_witness :
  OP3.removeOP3Prefix (OP3.addOP3Prefix "http://example.com/a.mp3")
  = "https://example.com/a.mp3" /\
  OP3.removeOP3Prefix (OP3.addOP3Prefix "example.com/a.mp3")
  = "https://example.com/a.mp3".
Proof.
  split.
  - exact (X3_remove_after_add_forces_https "http://example.com/a.mp3"
             eq_refl eq_refl).
  - exact (X3_remove_after_add_forces_https "example.com/a.mp3"
             eq_refl eq_refl).
Defined.

(** X4: the round trip in the other direction: for a URL that carries the
    OP3 prefix once (what follows the prefix does not start with
    "op3.dev/e/"), adding the prefix after removing it gives back the URL. *)
Theorem X4_add_after_remove (url : string) :
  OP3.hasOP3Prefix url = true ->
  JS.startsWith (JS.substring (String.length OP3.OP3_PREFIX) url)
    "op3.dev/e/" = false ->
  OP3.addOP3Prefix (OP3.removeOP3Prefix url) = url.
Proof.
  unfold OP3.hasOP3Prefix. intros Hp Hrest.
  pose proof (startsWith_split url OP3.OP3_PREFIX Hp) as Hurl.
  remember (JS.substring (String.length OP3.OP3_PREFIX) url) as rest.
  rewrite Hurl. unfold OP3.removeOP3Prefix.
  rewrite truthy_prefixed, startsWith_app, substring_app. cbn [negb].
  unfold OP3.addOP3Prefix, OP3.stripProtocol.
  assert (JS.truthy ("https://" +:+ rest) = true) as -> by reflexivity.
  assert (JS.startsWith ("https://" +:+ rest) OP3.OP3_PREFIX
          = JS.startsWith rest "op3.dev/e/") as -> by reflexivity.
  rewrite Hrest. cbn [negb].
  rewrite (startsWith_app "https://" rest).
  reflexivity.
Qed.

Lemma X4_add_after_remove_witness :
  OP3.addOP3Prefix
    (OP3.removeOP3Prefix "https://op3.dev/e/example.com/a.mp3")
  = "https://op3.dev/e/example.com/a.mp3".
Proof.
  exact (X4_add_after_remove "https://op3.dev/e/example.com/a.mp3"
           eq_refl eq_refl).
Defined.

(* ====================================================================== *)
(** ** Further results: MIME type correction *)
(* ====================================================================== *)

Lemma lowerChar_idempotent (c : ascii) :
  JS.lowerChar (JS.lowerChar c) = JS.lowerChar c.
Proof. destruct c as [[] [] [] [] [] [] [] []]; reflexivity. Qed.

Lemma toLowerCase_idempotent (s : string) :
  JS.toLowerCase (JS.toLowerCase s) = JS.toLowerCase s.
Proof.
  induction s as [|c s IH]; [reflexivity|].
  cbn [JS.toLowerCase]. now rewrite lowerChar_idempotent, IH.
Qed.

Lemma lowerChar_dot (c : ascii) :
  Ascii.eqb "." (JS.lowerChar c) = Ascii.eqb "." c.
Proof. destruct c as [[] [] [] [] [] [] [] []]; reflexivity. Qed.

Lemma lacks_toLowerCase (s : string) :
  JS.lacks "." (JS.toLowerCase s) = JS.lacks "." s.
Proof.
  induction s as [|c s IH]; [reflexivity|].
  cbn [JS.lacks JS.toLowerCase]. now rewrite lowerChar_dot, IH.
Qed.

Lemma toLowerCase_app (s t : string) :
  JS.toLowerCase (s +:+ t) = JS.toLowerCase s +:+ JS.toLowerCase t.
Proof.
  induction s as [|c s IH]; [reflexivity|].
  change (String (JS.lowerChar c) (JS.toLowerCase (s +:+ t))
          = String (JS.lowerChar c) (JS.toLowerCase s +:+ JS.toLowerCase t)).
  now rewrite IH.
Qed.

Lemma lacks_app (c : ascii) (s t : string) :
  JS.lacks c (s +:+ t) = JS.lacks c s && JS.lacks c t.
Proof.
  induction s as [|d s IH]; [reflexivity|].
  change (negb (Ascii.eqb c d) && JS.lacks c (s +:+ t)
          = negb (Ascii.eqb c d) && JS.lacks c s && JS.lacks c t).
  rewrite IH. now rewrite andb_assoc.
Qed.

Lemma matchExtension_no_dot (s : string) :
  JS.lacks "." s = true -> Mime.matchExtension s = None.
Proof.
  induction s as [|c s IH]; [reflexivity|].
  cbn [JS.lacks Mime.matchExtension].
  intros H. apply andb_true_iff in H as [Hc Hs].
  apply negb_true_iff in Hc. rewrite Ascii.eqb_sym in Hc. rewrite Hc.
  cbn [andb]. auto.
Qed.

Lemma matchExtension_trailing_dot (s : string) :
  Mime.matchExtension (s +:+ ".") = None.
Proof.
  induction s as [|c s IH]; [reflexivity|].
  change (Mime.matchExtension (String c (s +:+ ".")) = None).
  cbn [Mime.matchExtension]. rewrite lacks_app.
  change (JS.lacks "." ".") with false.
  now rewrite !andb_false_r.
Qed.

(** X5: when the input is correctable (an empty or generic type and a known
    extension), the result is the input with its type replaced by the table's
    entry for the lower-cased extension; that type is neither empty nor
    "application/octet-stream". *)
Theorem X5_ensureCorrectMimeType_corrects (now : Z) (file : Mime.File) :
  Mime.correctable file ->
  exists ext t,
    Mime.matchExtension (JS.toLowerCase (Mime.name file)) = Some ext /\
    Mime.MIME_TYPE_MAP !! ext = Some t /\
    Mime.ensureCorrectMimeType now file
    = Mime.mkFile (Mime.name file) t (Mime.bytes file) now EmptyString /\
    t <> EmptyString /\ t <> "application/octet-stream".
Proof.
  intros Hc.
  destruct (ensureCorrectMimeType_correctable now file Hc)
    as (ext & t & Hext & Hmap & H & Htr & Hoct).
  exists ext, t.
  split; [exact Hext|]. split; [exact Hmap|]. split; [exact H|].
  split; intros ->; discriminate.
Qed.

Lemma X5_ensureCorrectMimeType_corrects_witness :
  exists ext t,
    Mime.matchExtension (JS.toLowerCase "Talk.Final.M4A") = Some ext /\
    Mime.MIME_TYPE_MAP !! ext = Some t /\
    Mime.ensureCorrectMimeType 2000
      (Mime.mkFile "Talk.Final.M4A" "application/octet-stream" [] 1000
         "talks/Talk.Final.M4A")
    = Mime.mkFile "Talk.Final.M4A" t [] 2000 EmptyString /\
    t <> EmptyString /\ t <> "application/octet-stream".
Proof.
  apply (X5_ensureCorrectMimeType_corrects 2000
           (Mime.mkFile "Talk.Final.M4A" "application/octet-stream" [] 1000
              "talks/Talk.Final.M4A")).
  split; [now right|]. exists ".m4a". split; [reflexivity|].
  exists "audio/mp4". vm_compute. reflexivity.
Defined.

Lemma ensureCorrectMimeType_cases (now : Z) (file : Mime.File) :
  Mime.ensureCorrectMimeType now file = file \/
  exists t, Mime.ensureCorrectMimeType now file
            = Mime.mkFile (Mime.name file) t (Mime.bytes file) now
                EmptyString /\
            JS.truthy t = true /\
            String.eqb t "application/octet-stream" = false.
Proof.
  unfold Mime.ensureCorrectMimeType.
  destruct (JS.truthy (Mime.type file) && _); [now left|].
  destruct (Mime.matchExtension _) as [ext|]; [|now left].
  destruct (negb (JS.truthy ext)); [now left|].
  destruct (Mime.MIME_TYPE_MAP !! ext) as [t|] eqn:Hmap; [|now left].
  destruct (table_entry ext t Hmap) as (Htr & Hoct & Hnorm).
  rewrite Htr. cbn [negb]. right. exists t. unfold Mime.newFile.
  now rewrite Hnorm.
Qed.

(** X6: [ensureCorrectMimeType] is idempotent: a file that has been through
    it is returned unchanged by a second call, whenever that call is made. *)
Theorem X6_ensureCorrectMimeType_idempotent (now now' : Z)
    (file : Mime.File) :
  Mime.ensureCorrectMimeType now' (Mime.ensureCorrectMimeType now file)
  = Mime.ensureCorrectMimeType now file.
Proof.
  destruct (correctable_dec file) as [Hc|Hn].
  - destruct (ensureCorrectMimeType_correctable now file Hc)
      as (ext & t & _ & _ & -> & Htr & Hoct).
    unfold Mime.ensureCorrectMimeType. cbn [Mime.type].
    now rewrite Htr, Hoct.
  - now rewrite !(ensureCorrectMimeType_not_correctable _ file Hn).
Qed.

(** X7: a file whose name has no dot, or whose name ends in a dot, is
    returned unchanged, whatever its type. *)
Theorem X7_no_extension_unchanged (now : Z) (file : Mime.File) :
  JS.lacks "." (Mime.name file) = true \/
  (exists stem, Mime.name file = stem +:+ ".") ->
  Mime.ensureCorrectMimeType now file = file.
Proof.
  intros H.
  assert (Hnone :
    Mime.matchExtension (JS.toLowerCase (Mime.name file)) = None).
  { destruct H as [H|[stem ->]].
    - apply matchExtension_no_dot. now rewrite lacks_toLowerCase.
    - rewrite toLowerCase_app. apply matchExtension_trailing_dot. }
  unfold Mime.ensureCorrectMimeType. rewrite Hnone.
  now destruct (JS.truthy (Mime.type file) && _).
Qed.

Lemma X7_no_extension_unchanged_witness :
  Mime.ensureCorrectMimeType 2000
    (Mime.mkFile "README" EmptyString [] 1000 EmptyString)
  = Mime.mkFile "README" EmptyString [] 1000 EmptyString /\
  Mime.ensureCorrectMimeType 2000
    (Mime.mkFile "episode.mp3." EmptyString [] 1000 EmptyString)
  = Mime.mkFile "episode.mp3." EmptyString [] 1000 EmptyString.
Proof.
  split.
  - apply (X7_no_extension_unchanged 2000
             (Mime.mkFile "README" EmptyString [] 1000 EmptyString)).
    left. reflexivity.
  - apply (X7_no_extension_unchanged 2000
             (Mime.mkFile "episode.mp3." EmptyString [] 1000 EmptyString)).
    right. exists "episode.mp3". reflexivity.
Defined.

(** X8: the correction looks at the name only through its lower-cased
    form: renaming a file to its lower-cased name does not change the type
    that [ensureCorrectMimeType] gives it. *)
Theorem X8_extension_case_insensitive (now : Z) (nm ty : string)
    (bs : list Byte.byte) (modified : Z) (path : string) :
  Mime.type (Mime.ensureCorrectMimeType now
               (Mime.mkFile (JS.toLowerCase nm) ty bs modified path))
  = Mime.type (Mime.ensureCorrectMimeType now
                 (Mime.mkFile nm ty bs modified path)).
Proof.
  unfold Mime.ensureCorrectMimeType. cbn [Mime.name Mime.type].
  rewrite toLowerCase_idempotent.
  destruct (JS.truthy ty && negb (String.eqb ty "application/octet-stream"));
    [reflexivity|].
  destruct (Mime.matchExtension (JS.toLowerCase nm)) as [ext|];
    [|reflexivity].
  destruct (negb (JS.truthy ext)); [reflexivity|].
  destruct (Mime.MIME_TYPE_MAP !! ext) as [t|]; [|reflexivity].
  now destruct (negb (JS.truthy t)).
Qed.

(* ====================================================================== *)
(** ** Further results: episodes and audience *)
(* ====================================================================== *)

Import Tally.

Lemma default_Some {A} (d x : A) : default d (Some x) = x.
Proof. reflexivity. Qed.

Lemma episodeMap_snoc rows r :
  episodeMap (rows ++ [r]) = episodeStep (episodeMap rows) r.
Proof. unfold episodeMap. now rewrite fold_left_app. Qed.

Lemma episodeStep_get (m : list (string * Stats.t)) r id :
  JSMap.get id (episodeStep m r)
  = if decide (id = itemId r)
    then
      let stats := default (Stats.mk 0 []) (JSMap.get (itemId r) m) in
      Some (Stats.mk (Stats.downloads stats + 1)
              match hashedIpAddress r with
              | Some h => if JS.truthy h
                          then JSSet.add h (Stats.uniqueIps stats)
                          else Stats.uniqueIps stats
              | None => Stats.uniqueIps stats
              end)
    else JSMap.get id m.
Proof.
  unfold episodeStep, JSMap.has.
  destruct (JSMap.get (itemId r) m) as [stats|] eqn:E.
  - rewrite E. cbn [default]. apply get_set.
  - rewrite get_set_eq. cbn [default]. rewrite get_set.
    destruct (decide (id = itemId r)); [reflexivity|].
    apply get_set_ne. congruence.
Qed.

Lemma add_NoDup (h : string) (s : list string) :
  NoDup s -> NoDup (JSSet.add h s).
Proof.
  intros H. unfold JSSet.add. destruct (decide (h ∈ s)); [assumption|].
  apply NoDup_app. repeat split; [assumption| |apply NoDup_singleton].
  intros x Hx Hx'. apply list_elem_of_singleton in Hx'. now subst.
Qed.

Lemma add_length (h : string) (s : list string) :
  length (JSSet.add h s) <= S (length s).
Proof.
  unfold JSSet.add. destruct (decide (h ∈ s)); [lia|].
  rewrite length_app. cbn. lia.
Qed.

Lemma hashOf_snoc item h rows r :
  hashOf item h (rows ++ [r]) <->
  hashOf item h rows \/
  (itemId r = item /\ hashedIpAddress r = Some h /\ JS.truthy h = true).
Proof.
  unfold hashOf. split.
  - intros (r' & Hin & H). apply elem_of_app in Hin as [Hin|Hin].
    + left. eauto.
    + apply list_elem_of_singleton in Hin. subst. now right.
  - intros [(r' & Hin & H)|H].
    + exists r'. split; [apply elem_of_app; now left | assumption].
    + exists r. split; [apply elem_of_app; right; now left | assumption].
Qed.

(** What [episodeMap] holds for an item: the number of its rows and the
    distinct non-empty hashes of its rows. *)
Lemma episodeMap_stats rows id :
  let stats := default (Stats.mk 0 []) (JSMap.get id (episodeMap rows)) in
  Stats.downloads stats = occurrences (fun r => Some (itemId r)) id rows /\
  NoDup (Stats.uniqueIps stats) /\
  (forall h, h ∈ Stats.uniqueIps stats <-> hashOf id h rows) /\
  length (Stats.uniqueIps stats) <= Stats.downloads stats.
Proof.
  cbn zeta. induction rows as [|r rows IH] using rev_ind.
  - cbn. repeat split; try lia; try constructor.
    + intros H. now apply elem_of_nil in H.
    + intros (r & H & _). now apply elem_of_nil in H.
  - rewrite episodeMap_snoc, episodeStep_get, occurrences_snoc.
    destruct (decide (id = itemId r)) as [->|Hne].
    + rewrite decide_True by reflexivity. cbn zeta. rewrite default_Some.
      destruct IH as (Hd & Hnd & Hmem & Hlen).
      set (stats := default (Stats.mk 0 []) _) in *.
      cbn [Stats.downloads Stats.uniqueIps].
      split; [lia|].
      destruct (hashedIpAddress r) as [h|] eqn:Eh.
      * destruct (JS.truthy h) eqn:Et.
        -- split; [now apply add_NoDup|]. split.
           ++ intros h'. rewrite add_elem_of, hashOf_snoc, Hmem, Eh.
              split.
              ** intros [->|?]; [right; auto | now left].
              ** intros [?|(_ & [= ->] & _)]; [now right | now left].
           ++ pose proof (add_length h (Stats.uniqueIps stats)). lia.
        -- split; [assumption|]. split; [|lia].
           intros h'. rewrite hashOf_snoc, Hmem, Eh. split; [now left|].
           intros [?|(_ & [= ->] & Ht)]; [assumption | congruence].
      * split; [assumption|]. split; [|lia].
        intros h'. rewrite hashOf_snoc, Hmem, Eh. split; [now left|].
        intros [?|(_ & [=] & _)]; assumption.
    + rewrite decide_False by congruence.
      destruct IH as (Hd & Hnd & Hmem & Hlen).
      split; [lia|]. split; [assumption|]. split; [|assumption].
      intros h. rewrite hashOf_snoc, Hmem. split; [now left|].
      intros [?|(He & _)]; [assumption | congruence].
Qed.

Lemma episodeStats_entry getTime clock titles rows e :
  e ∈ episodeStats (aggregate getTime clock titles rows) ->
  exists id stats,
    JSMap.get id (episodeMap rows) = Some stats /\
    e = episodeEntry titles (id, stats).
Proof.
  cbn [aggregate episodeStats]. rewrite sort_elem_of.
  intros H. apply list_elem_of_fmap in H as ([id stats] & -> & H).
  exists id, stats. split; [|reflexivity].
  apply elem_of_get; [apply episodeMap_keys | assumption].
Qed.

Lemma episodeStats_ids getTime clock titles rows :
  EpisodeStat.episodeId <$> episodeStats (aggregate getTime clock titles rows)
  ≡ₚ JSMap.keys (episodeMap rows).
Proof.
  cbn [aggregate episodeStats].
  now rewrite sort_Permutation, episodeEntry_keys.
Qed.

Lemma sum_downloads_set (m : list (string * Stats.t)) k v :
  sum_list_with (fun e => Stats.downloads e.2) (JSMap.set k v m)
  + match JSMap.get k m with Some s => Stats.downloads s | None => 0 end
  = sum_list_with (fun e => Stats.downloads e.2) m + Stats.downloads v.
Proof.
  induction m as [|[k' v'] m IH]; cbn; [lia|].
  destruct (String.eqb k k'); cbn; lia.
Qed.

Lemma sum_downloads_step (m : list (string * Stats.t)) r :
  sum_list_with (fun e => Stats.downloads e.2) (episodeStep m r)
  = S (sum_list_with (fun e => Stats.downloads e.2) m).
Proof.
  unfold episodeStep, JSMap.has.
  destruct (JSMap.get (itemId r) m) as [stats|] eqn:E.
  - rewrite E.
    match goal with
    | |- context [JSMap.set ?k ?v m] =>
        pose proof (sum_downloads_set m k v) as H
    end.
    rewrite E in H. cbn [Stats.downloads] in H. lia.
  - rewrite get_set_eq.
    pose proof (sum_downloads_set m (itemId r) (Stats.mk 0 [])) as H1.
    rewrite E in H1. cbn [Stats.downloads] in H1.
    match goal with
    | |- context [JSMap.set ?k ?v (JSMap.set ?k ?z m)] =>
        pose proof (sum_downloads_set (JSMap.set k z m) k v) as H2
    end.
    rewrite get_set_eq in H2. cbn [Stats.downloads] in *. lia.
Qed.

Lemma sum_downloads_episodeMap rows :
  sum_list_with (fun e => Stats.downloads e.2) (episodeMap rows)
  = length rows.
Proof.
  induction rows as [|r rows IH] using rev_ind; [reflexivity|].
  rewrite episodeMap_snoc, sum_downloads_step, IH, length_app.
  cbn [length]. lia.
Qed.

(** X9: [episodeStats] has exactly one entry per item that occurs in the
    rows; the [downloads] of an entry is the number of rows of its item, and
    the [downloads] of all entries add up to [totalDownloads]. *)
Theorem X9_episodeStats_downloads
    (getTime : string -> option Z) (clock : Clock)
    (titles : list (string * string)) (rows : list DownloadRow) :
  let r := aggregate getTime clock titles rows in
  NoDup (EpisodeStat.episodeId <$> episodeStats r) /\
  (forall id, id ∈ EpisodeStat.episodeId <$> episodeStats r <->
              exists row, row ∈ rows /\ itemId row = id) /\
  (forall e, e ∈ episodeStats r ->
     EpisodeStat.downloads e
     = occurrences (fun row => Some (itemId row))
         (EpisodeStat.episodeId e) rows /\
     0 < EpisodeStat.downloads e) /\
  sum_list_with EpisodeStat.downloads (episodeStats r) = totalDownloads r.
Proof.
  cbn zeta. destruct (episodeMap_keys rows) as (Hnd & Hmem & _).
  split; [|split; [|split]].
  - now rewrite episodeStats_ids.
  - intros id. rewrite episodeStats_ids, Hmem, firstIndex_Some_elem.
    split; intros (row & H1 & H2); exists row; split; congruence.
  - intros e He.
    destruct (episodeStats_entry _ _ _ _ e He) as (id & stats & Hg & ->).
    cbn [episodeEntry EpisodeStat.downloads EpisodeStat.episodeId fst snd].
    pose proof (episodeMap_stats rows id) as Hs. cbn zeta in Hs.
    rewrite Hg, default_Some in Hs. destruct Hs as (Hd & _).
    split; [exact Hd|]. rewrite Hd. apply occurrences_pos, Hmem.
    eapply get_Some_keys; eauto.
  - cbn [aggregate episodeStats totalDownloads].
    rewrite sort_Permutation. rewrite <- (sum_downloads_episodeMap rows).
    generalize (episodeMap rows). intros m.
    induction m as [|x m IH]; cbn; [reflexivity | now rewrite IH].
Qed.

Section SetFacts.
Context {A : Type} `{EqDecision A}.
Implicit Types (x y : A) (s l : list A).

Lemma ofArray_fold l s :
  NoDup s ->
  NoDup (fold_left (fun s x => JSSet.add x s) l s) /\
  (forall x, x ∈ fold_left (fun s x => JSSet.add x s) l s <-> x ∈ s \/ x ∈ l)
  /\ length (fold_left (fun s x => JSSet.add x s) l s) <= length s + length l.
Proof.
  revert s; induction l as [|y l IH]; intros s Hs; cbn [fold_left].
  - split; [assumption|]. split; [|cbn; lia].
    intros x. rewrite elem_of_nil. tauto.
  - assert (Hadd : NoDup (JSSet.add y s) /\
                   (forall x, x ∈ JSSet.add y s <-> x = y \/ x ∈ s) /\
                   length (JSSet.add y s) <= S (length s)).
    { unfold JSSet.add. destruct (decide (y ∈ s)) as [Hy|Hy].
      - split; [assumption|]. split; [|lia].
        intros x. split; [now right | intros [->|?]; assumption].
      - split.
        + apply NoDup_app. repeat split; [assumption| |apply NoDup_singleton].
          intros x Hx Hx'. apply list_elem_of_singleton in Hx'. now subst.
        + split; [|rewrite length_app; cbn; lia].
          intros x. rewrite elem_of_app, list_elem_of_singleton. tauto. }
    destruct Hadd as (Hnd & Hmem & Hlen).
    destruct (IH _ Hnd) as (H1 & H2 & H3).
    split; [assumption|]. split; [|cbn [length]; lia].
    intros x. rewrite H2, Hmem, elem_of_cons. tauto.
Qed.

Lemma ofArray_spec l :
  NoDup (JSSet.ofArray l) /\
  (forall x, x ∈ JSSet.ofArray l <-> x ∈ l) /\
  length (JSSet.ofArray l) <= length l.
Proof.
  unfold JSSet.ofArray.
  destruct (ofArray_fold l [] (NoDup_nil_2)) as (H1 & H2 & H3).
  split; [assumption|]. split; [|assumption].
  intros x. rewrite H2, elem_of_nil. tauto.
Qed.
End SetFacts.

Lemma all_Some {A} (s : list (option A)) :
  (forall o, o ∈ s -> is_Some o) -> exists l, s = Some <$> l.
Proof.
  induction s as [|o s IH]; intros H.
  - now exists [].
  - destruct (H o) as [x ->]; [now left|].
    destruct IH as [l ->]; [intros o Ho; apply H; now right|].
    now exists (x :: l).
Qed.

Lemma elem_of_filter_bool {A} (f : A -> bool) (l : list A) x :
  x ∈ List.filter f l <-> x ∈ l /\ f x = true.
Proof. rewrite !list_elem_of_In. apply List.filter_In. Qed.

(** The set behind [uniqueAudience]: the distinct non-empty hashes. *)
Lemma uniqueAudience_hashes getTime clock titles rows :
  exists hs,
    NoDup hs /\ (forall h, h ∈ hs <-> hashIn h rows) /\
    uniqueAudience (aggregate getTime clock titles rows) = length hs.
Proof.
  cbn [aggregate uniqueAudience]. unfold JSSet.size.
  set (l := List.filter JS.truthyOpt (hashedIpAddress <$> rows)).
  destruct (ofArray_spec l) as (Hnd & Hmem & _).
  destruct (all_Some (JSSet.ofArray l)) as [hs Hhs].
  { intros o Ho. apply Hmem in Ho. unfold l in Ho.
    apply elem_of_filter_bool in Ho as [_ Ho].
    destruct o; [eauto | discriminate]. }
  exists hs. rewrite Hhs in *. split; [|split].
  - eapply NoDup_fmap_1; eauto.
  - intros h. rewrite <- (list_elem_of_fmap_inj Some), Hmem.
    unfold l. rewrite elem_of_filter_bool, list_elem_of_fmap. unfold hashIn.
    split.
    + intros [(r & Hr & Hin) Ht]. exists r. auto.
    + intros (r & Hin & Hr & Ht). split; [|exact Ht]. exists r. auto.
  - now rewrite length_fmap.
Qed.

(** X10: the [uniqueListeners] of an entry of [episodeStats] is the number
    of distinct non-empty address hashes among the rows of its item, and it
    is at most the entry's [downloads]. *)
Theorem X10_uniqueListeners_distinct_hashes
    (getTime : string -> option Z) (clock : Clock)
    (titles : list (string * string)) (rows : list DownloadRow)
    (e : EpisodeStat.t) :
  e ∈ episodeStats (aggregate getTime clock titles rows) ->
  (exists hs,
     NoDup hs /\
     (forall h, h ∈ hs <-> hashOf (EpisodeStat.episodeId e) h rows) /\
     EpisodeStat.uniqueListeners e = length hs) /\
  EpisodeStat.uniqueListeners e <= EpisodeStat.downloads e.
Proof.
  intros He.
  destruct (episodeStats_entry _ _ _ _ e He) as (id & stats & Hg & ->).
  cbn [episodeEntry EpisodeStat.downloads EpisodeStat.episodeId
       EpisodeStat.uniqueListeners fst snd].
  pose proof (episodeMap_stats rows id) as Hs. cbn zeta in Hs.
  rewrite Hg, default_Some in Hs. destruct Hs as (_ & Hnd & Hmem & Hlen).
  split; [|exact Hlen]. exists (Stats.uniqueIps stats). auto.
Qed.

Lemma X10_uniqueListeners_distinct_hashes_witness :
  let row h := mkRow "2024-03-14T12:00:00Z" "https://example.com/a.mp3"
                 None None None None (Some "A") h in
  let rows := [row (Some "h1"); row (Some "h1"); row None; row (Some "h2")] in
  let e := EpisodeStat.mk "A" "A" 4 2 in
  episodeStats (aggregate sampleGetTime sampleClock [] rows) = [e] /\
  EpisodeStat.uniqueListeners e <= EpisodeStat.downloads e.
Proof.
  intros row rows e. split; [reflexivity|].
  refine (proj2 (X10_uniqueListeners_distinct_hashes sampleGetTime
                   sampleClock [] rows e _)).
  left.
Defined.

(** X11: [uniqueAudience] is the number of distinct non-empty address
    hashes among all rows; it is at most [totalDownloads], and no entry of
    [episodeStats] has more [uniqueListeners] than that. *)
Theorem X11_uniqueAudience_distinct_hashes
    (getTime : string -> option Z) (clock : Clock)
    (titles : list (string * string)) (rows : list DownloadRow) :
  let r := aggregate getTime clock titles rows in
  (exists hs,
     NoDup hs /\ (forall h, h ∈ hs <-> hashIn h rows) /\
     uniqueAudience r = length hs) /\
  uniqueAudience r <= totalDownloads r /\
  (forall e, e ∈ episodeStats r ->
     EpisodeStat.uniqueListeners e <= uniqueAudience r).
Proof.
  cbn zeta. split; [apply uniqueAudience_hashes|]. split.
  - cbn [aggregate uniqueAudience totalDownloads]. unfold JSSet.size.
    etransitivity; [apply ofArray_spec|].
    etransitivity; [apply List.filter_length_le|].
    now rewrite length_fmap.
  - intros e He.
    destruct (uniqueAudience_hashes getTime clock titles rows)
      as (hs & Hnd & Hmem & ->).
    destruct (episodeStats_entry _ _ _ _ e He) as (id & stats & Hg & ->).
    cbn [episodeEntry EpisodeStat.uniqueListeners snd]. unfold JSSet.size.
    pose proof (episodeMap_stats rows id) as Hs. cbn zeta in Hs.
    rewrite Hg, default_Some in Hs. destruct Hs as (_ & Hnd' & Hmem' & _).
    apply submseteq_length, NoDup_submseteq; [assumption|].
    intros h Hh. apply Hmem. apply Hmem' in Hh as (r & Hr & _ & Hh & Ht).
    exists r. auto.
Qed.

Lemma episodeTitleMap_snoc eps ep :
  episodeTitleMap (eps ++ [ep])
  = match Episode.title ep with
    | Some t => if JS.truthy t
                then JSMap.set (Episode.id ep) t (episodeTitleMap eps)
                else episodeTitleMap eps
    | None => episodeTitleMap eps
    end.
Proof. unfold episodeTitleMap. now rewrite fold_left_app. Qed.

Lemma episodeTitleMap_other eps ep id :
  (forall t, ~ titles id t ep) ->
  JSMap.get id (episodeTitleMap (eps ++ [ep]))
  = JSMap.get id (episodeTitleMap eps).
Proof.
  intros H. rewrite episodeTitleMap_snoc.
  destruct (Episode.title ep) as [t|] eqn:Et; [|reflexivity].
  destruct (JS.truthy t) eqn:Ht; [|reflexivity].
  apply get_set_ne. intros Hid. apply (H t). unfold titles. auto.
Qed.

Lemma episodeTitleMap_untitled eps id :
  untitled id eps -> JSMap.get id (episodeTitleMap eps) = None.
Proof.
  induction eps as [|ep eps IH] using rev_ind; intros H; [reflexivity|].
  rewrite episodeTitleMap_other.
  - apply IH. intros ep' t Hin. apply H. apply elem_of_app. now left.
  - intros t. apply H. apply elem_of_app. right. now left.
Qed.

Lemma episodeTitleMap_last eps1 ep eps2 id t :
  titles id t ep -> untitled id eps2 ->
  JSMap.get id (episodeTitleMap (eps1 ++ ep :: eps2)) = Some t.
Proof.
  intros (Hid & Ht & Htr).
  induction eps2 as [|ep' eps2 IH] using rev_ind; intros H.
  - rewrite episodeTitleMap_snoc, Ht, Htr, <- Hid. apply get_set_eq.
  - replace (eps1 ++ ep :: eps2 ++ [ep']) with ((eps1 ++ ep :: eps2) ++ [ep'])
      by now rewrite <- app_assoc.
    rewrite episodeTitleMap_other.
    + apply IH. intros e t' Hin. apply H. apply elem_of_app. now left.
    + intros t'. apply H. apply elem_of_app. right. now left.
Qed.

(** X12: the label of an entry of [episodeStats] (its [url] field) is the
    title of the last episode of the show response that has the entry's id
    and a non-empty title; when the response has no such episode, the label
    is the id itself. *)
Theorem X12_episode_label
    (getTime : string -> option Z) (clock : Clock)
    (episodes : list Episode.t) (rows : list DownloadRow)
    (e : EpisodeStat.t) :
  e ∈ episodeStats (aggregate getTime clock (episodeTitleMap episodes) rows) ->
  (untitled (EpisodeStat.episodeId e) episodes ->
   EpisodeStat.url e = EpisodeStat.episodeId e) /\
  (forall eps1 ep eps2 t,
     episodes = eps1 ++ ep :: eps2 ->
     titles (EpisodeStat.episodeId e) t ep ->
     untitled (EpisodeStat.episodeId e) eps2 ->
     EpisodeStat.url e = t).
Proof.
  intros He.
  destruct (episodeStats_entry _ _ _ _ e He) as (id & stats & _ & ->).
  cbn [episodeEntry EpisodeStat.url EpisodeStat.episodeId fst].
  split.
  - intros H. now rewrite episodeTitleMap_untitled.
  - intros eps1 ep eps2 t -> Ht Hun.
    rewrite (episodeTitleMap_last eps1 ep eps2 id t Ht Hun).
    destruct Ht as (_ & _ & ->). reflexivity.
Qed.

Lemma X12_episode_label_witness :
  let episodes := [ Episode.mk "A" (Some "Pilot"); Episode.mk "B" None;
                    Episode.mk "A" (Some "Pilot, remastered") ] in
  let rows := [ sampleRow "2024-03-14T12:00:00Z" (Some "A") None None;
                sampleRow "2024-03-14T12:00:00Z" (Some "B") None None ] in
  let a := EpisodeStat.mk "A" "Pilot, remastered" 1 0 in
  let b := EpisodeStat.mk "B" "B" 1 0 in
  episodeStats
    (aggregate sampleGetTime sampleClock (episodeTitleMap episodes) rows)
  = [a; b] /\
  EpisodeStat.url a = "Pilot, remastered" /\
  EpisodeStat.url b = EpisodeStat.episodeId b.
Proof.
  intros episodes rows a b. split; [reflexivity|]. split.
  - refine (proj2 (X12_episode_label sampleGetTime sampleClock episodes rows
                     a _)
              [Episode.mk "A" (Some "Pilot"); Episode.mk "B" None]
              (Episode.mk "A" (Some "Pilot, remastered")) []
              "Pilot, remastered" eq_refl _ _).
    + left.
    + repeat split.
    + intros ep t Hin. now apply elem_of_nil in Hin.
  - refine (proj1 (X12_episode_label sampleGetTime sampleClock episodes rows
                     b _) _).
    + right. left.
    + intros ep t Hin (Hid & Ht & _).
      repeat (apply elem_of_cons in Hin as [->|Hin];
              [discriminate Hid || discriminate Ht|]).
      now apply elem_of_nil in Hin.
Defined.

(* ====================================================================== *)
(** ** Further results: totals *)
(* ====================================================================== *)

Lemma filter_length_mono {A} (f g : A -> bool) (l : list A) :
  (forall x, f x = true -> g x = true) ->
  length (List.filter f l) <= length (List.filter g l).
Proof.
  intros H. induction l as [|x l IH]; cbn; [lia|].
  destruct (f x) eqn:Ef.
  - rewrite (H x Ef). cbn. lia.
  - destruct (g x); cbn; lia.
Qed.

(** X13: neither rolling count exceeds [totalDownloads], whatever the
    clock reads; and when the 30-day bound is not later than the 7-day bound
    (the two clock readings are at most 23 days apart), [downloads7Days] is
    at most [downloads30Days]. *)
Theorem X13_scalars_ordered
    (getTime : string -> option Z) (clock : Clock)
    (titles : list (string * string)) (rows : list DownloadRow) :
  let r := aggregate getTime clock titles rows in
  downloads30Days r <= totalDownloads r /\
  downloads7Days r <= totalDownloads r /\
  ((at30d clock - 30 * dayMs <= at7d clock - 7 * dayMs)%Z ->
   downloads7Days r <= downloads30Days r).
Proof.
  cbn zeta.
  cbn [aggregate downloads7Days downloads30Days totalDownloads].
  split; [apply List.filter_length_le|].
  split; [apply List.filter_length_le|].
  intros Hclock.
  apply filter_length_mono. intros row. unfold since, dayMs in *.
  destruct (getTime (time row)) as [t|]; [|discriminate].
  rewrite !Z.leb_le. lia.
Qed.

Lemma X13_scalars_ordered_witness :
  let r := aggregate sampleGetTime sampleClock []
             [ sampleRow "2024-03-14T12:00:00Z" None None None;
               sampleRow "2024-03-01T12:00:00Z" None None None;
               sampleRow "2024-01-01T12:00:00Z" None None None ] in
  downloads30Days r <= totalDownloads r /\
  downloads7Days r <= totalDownloads r /\
  downloads7Days r <= downloads30Days r.
Proof.
  cbn zeta.
  destruct (X13_scalars_ordered sampleGetTime sampleClock []
              [ sampleRow "2024-03-14T12:00:00Z" None None None;
                sampleRow "2024-03-01T12:00:00Z" None None None;
                sampleRow "2024-01-01T12:00:00Z" None None None ])
    as (H30 & H7 & Hord).
  split; [exact H30|]. split; [exact H7|].
  apply Hord. vm_compute. discriminate.
Defined.

(** X14: a row whose time the date library cannot read (NaN) is counted in
    [totalDownloads] and in neither rolling count. *)
Theorem X14_unreadable_time_not_in_windows
    (getTime : string -> option Z) (clock : Clock)
    (titles : list (string * string))
    (before after : list DownloadRow) (r : DownloadRow) :
  getTime (time r) = None ->
  let with_r := aggregate getTime clock titles (before ++ r :: after) in
  let without := aggregate getTime clock titles (before ++ after) in
  totalDownloads with_r = S (totalDownloads without) /\
  downloads7Days with_r = downloads7Days without /\
  downloads30Days with_r = downloads30Days without.
Proof.
  intros Ht. cbn zeta.
  cbn [aggregate totalDownloads downloads7Days downloads30Days].
  rewrite !filter_length_insert. unfold since. rewrite Ht.
  rewrite !length_app. cbn [length]. lia.
Qed.

Lemma X14_unreadable_time_not_in_windows_witness :
  let ok := sampleRow "2024-03-14T12:00:00Z" None None None in
  let bad := sampleRow "yesterday" None None None in
  let with_r := aggregate sampleGetTime sampleClock [] [ok; bad; ok] in
  let without := aggregate sampleGetTime sampleClock [] [ok; ok] in
  totalDownloads with_r = S (totalDownloads without) /\
  downloads7Days with_r = downloads7Days without /\
  downloads30Days with_r = downloads30Days without.
Proof.
  intros ok bad.
  exact (X14_unreadable_time_not_in_windows sampleGetTime sampleClock []
           [ok] [ok] bad eq_refl).
Defined.

(* ====================================================================== *)
(** ** Further results: the time series *)
(* ====================================================================== *)

Lemma allDates_NoDup rows : NoDup (allDates rows).
Proof.
  unfold allDates. rewrite sort_Permutation. apply episodeDailyMap_keys.
Qed.

Lemma allDates_elem_of rows d :
  d ∈ allDates rows <-> exists r, r ∈ rows /\ rowDate r = d.
Proof.
  unfold allDates. rewrite sort_elem_of.
  destruct (episodeDailyMap_keys rows) as (_ & Hmem & _).
  rewrite Hmem, firstIndex_Some_elem.
  split; intros (r & H1 & H2); exists r; split; congruence.
Qed.

Lemma allDates_ascending rows i j di dj :
  i < j -> allDates rows !! i = Some di -> allDates rows !! j = Some dj ->
  (JS.compareStrings di dj < 0)%Z.
Proof.
  intros Hij Hi Hj.
  assert (Hle : (JS.compareStrings di dj <= 0)%Z).
  { apply allDates_before with (rows := rows). exists i, j. auto. }
  destruct (Z.eq_dec (JS.compareStrings di dj) 0%Z) as [Heq|]; [|lia].
  apply compareStrings_eq in Heq. subst dj.
  pose proof (NoDup_lookup _ _ _ _ (allDates_NoDup rows) Hi Hj). lia.
Qed.

Lemma timeSeries_length rows :
  length (timeSeries rows) = length (allDates rows).
Proof.
  unfold timeSeries. generalize (initialCumulative (allEpisodeIds rows)).
  induction (allDates rows) as [|d ds IH]; intros c; cbn; [reflexivity|].
  now rewrite IH.
Qed.

Lemma allEpisodeIds_inv_days (daily : list (string * list (string * nat)))
    (s : list string) x :
  x ∈ fold_left
        (fun s day => fold_left (fun s' e => JSSet.add e.1 s') day.2 s)
        daily s ->
  x ∈ s \/ exists e, e ∈ daily /\ x ∈ JSMap.keys e.2.
Proof.
  revert s; induction daily as [|day daily IH]; cbn; intros s H; [now left|].
  apply IH in H as [H|(e & He & Hx)]; [|right; exists e; split; [now right|auto]].
  assert (Hday : forall (l : list (string * nat)) s0,
            x ∈ fold_left (fun s' e => JSSet.add e.1 s') l s0 ->
            x ∈ s0 \/ x ∈ JSMap.keys l).
  { unfold JSMap.keys. induction l as [|e l IHl]; cbn; intros s0 Hx; [now left|].
    apply IHl in Hx as [Hx|Hx]; [|right; now right].
    apply add_elem_of in Hx as [->|Hx]; [right; now left | now left]. }
  apply Hday in H as [H|H]; [now left|].
  right. exists day. split; [now left | assumption].
Qed.

Lemma allEpisodeIds_elem_of rows id :
  id ∈ allEpisodeIds rows <-> exists r, r ∈ rows /\ itemId r = id.
Proof.
  split.
  - intros H. apply allEpisodeIds_inv_days in H as [H|([d dm] & He & Hx)].
    + now apply elem_of_nil in H.
    + apply elem_of_get in He; [|apply episodeDailyMap_keys].
      destruct (episodeDailyMap_entry rows d dm id He Hx) as (r & Hr & _ & Hid).
      eauto.
  - intros (r & Hr & <-). now apply allEpisodeIds_row.
Qed.

(** The keys of the cumulative map are the items of the rows, at every
    stage. *)
Lemma cumulative_keys rows dates id :
  (forall d, d ∈ dates -> d ∈ allDates rows) ->
  is_Some (JSMap.get id
             (cumulativeAfter (episodeDailyMap rows)
                (initialCumulative (allEpisodeIds rows)) dates))
  <-> exists r, r ∈ rows /\ itemId r = id.
Proof.
  intros Hdates. split.
  - intros Hsome.
    destruct (decide (id ∈ allEpisodeIds rows)) as [Hin|Hin];
      [now apply allEpisodeIds_elem_of|].
    rewrite cumulativeAfter_other in Hsome.
    + unfold initialCumulative in Hsome. rewrite initial_get in Hsome.
      rewrite decide_False in Hsome by assumption. now destruct Hsome.
    + intros d _ Hkey.
      destruct (JSMap.get d (episodeDailyMap rows)) as [dm|] eqn:E;
        cbn [default] in Hkey; [|now apply elem_of_nil in Hkey].
      destruct (episodeDailyMap_entry rows d dm id E Hkey)
        as (r & Hr & _ & Hid).
      apply Hin, allEpisodeIds_elem_of. eauto.
  - intros (r & Hr & <-).
    destruct (cumulativeAfter_mono (episodeDailyMap rows) _ dates _ _
                (initialCumulative_row rows r Hr)) as (v & Hv & _).
    eauto.
Qed.

Lemma daily_NoDup rows d :
  NoDup (JSMap.keys (default [] (JSMap.get d (episodeDailyMap rows)))).
Proof.
  induction rows as [|r rows IH] using rev_ind; [constructor|].
  rewrite episodeDailyMap_snoc, dailyStep_get.
  destruct (decide (d = rowDate r)) as [->|]; [|assumption].
  cbn zeta. rewrite default_Some. now apply NoDup_keys_set.
Qed.

Lemma downloadsOn_snoc id d rows r :
  downloadsOn id d (rows ++ [r])
  = downloadsOn id d rows
    + (if decide (itemId r = id /\ rowDate r = d) then 1 else 0).
Proof.
  unfold downloadsOn. rewrite List.filter_app, length_app. cbn [List.filter].
  destruct (decide (itemId r = id /\ rowDate r = d)) as [E|E].
  - now rewrite bool_decide_eq_true_2.
  - now rewrite bool_decide_eq_false_2.
Qed.

(** The daily map counts, for a date and an item, the rows of that date
    and item. *)
Lemma daily_count rows d id :
  default 0 (JSMap.get id (default [] (JSMap.get d (episodeDailyMap rows))))
  = downloadsOn id d rows.
Proof.
  induction rows as [|r rows IH] using rev_ind; [reflexivity|].
  rewrite episodeDailyMap_snoc, dailyStep_get, downloadsOn_snoc.
  destruct (decide (d = rowDate r)) as [->|Hd].
  - cbn zeta. rewrite default_Some, get_set.
    destruct (decide (id = itemId r)) as [->|Hid].
    + rewrite decide_True by auto. cbn [default from_option]. unfold id.
      specialize (IH). rewrite <- IH. reflexivity.
    + rewrite decide_False by (intros [? _]; congruence). lia.
  - rewrite decide_False by (intros [_ ?]; congruence). lia.
Qed.

Lemma addDay_get dayData cumulative id v :
  NoDup (JSMap.keys dayData) ->
  JSMap.get id cumulative = Some v ->
  JSMap.get id (addDay dayData cumulative)
  = Some (v + default 0 (JSMap.get id dayData)).
Proof.
  unfold addDay, JSMap.keys. revert cumulative v.
  induction dayData as [|[k n] dayData IH]; intros c v Hnd Hv.
  - cbn. rewrite Hv. f_equal. lia.
  - cbn in Hnd. apply NoDup_cons in Hnd as [Hk Hnd].
    cbn [fold_left fst snd JSMap.get].
    destruct (String.eqb id k) eqn:E.
    + apply String.eqb_eq in E. subst k.
      rewrite (IH _ (v + n)); [|assumption|].
      * rewrite (proj2 (get_None dayData id) Hk). cbn. f_equal. lia.
      * rewrite get_set_eq, Hv. reflexivity.
    + apply String.eqb_neq in E. apply IH; [assumption|].
      rewrite get_set_ne by congruence. assumption.
Qed.

Lemma cumulativeAfter_get rows cumulative dates id v :
  JSMap.get id cumulative = Some v ->
  JSMap.get id (cumulativeAfter (episodeDailyMap rows) cumulative dates)
  = Some (v + sum_list_with (fun d => downloadsOn id d rows) dates).
Proof.
  unfold cumulativeAfter. revert cumulative v.
  induction dates as [|d dates IH]; intros c v Hv; cbn [fold_left].
  - cbn. rewrite Hv. f_equal. lia.
  - rewrite (IH _ (v + downloadsOn id d rows)).
    + cbn. f_equal. lia.
    + rewrite (addDay_get _ _ _ v (daily_NoDup rows d) Hv).
      now rewrite daily_count.
Qed.

Lemma filter_length_disjoint {A} (f g h : A -> bool) (l : list A) :
  (forall x, h x = f x || g x) -> (forall x, f x && g x = false) ->
  length (List.filter h l)
  = length (List.filter f l) + length (List.filter g l).
Proof.
  intros Hh Hd. induction l as [|x l IH]; cbn; [reflexivity|].
  rewrite Hh. specialize (Hd x).
  destruct (f x), (g x); cbn in *; try discriminate; lia.
Qed.

Lemma sum_downloadsOn id dates rows :
  NoDup dates ->
  sum_list_with (fun d => downloadsOn id d rows) dates
  = length (List.filter
              (fun r => bool_decide (itemId r = id /\ rowDate r ∈ dates))
              rows).
Proof.
  induction 1 as [|d dates Hd Hnd IH]; cbn [sum_list_with].
  - induction rows as [|r rows IHr]; [reflexivity|]. cbn.
    rewrite bool_decide_eq_false_2; [assumption|].
    intros [_ H]. now apply elem_of_nil in H.
  - rewrite IH. unfold downloadsOn. symmetry.
    apply filter_length_disjoint.
    + intros r. apply eq_true_iff_eq.
      rewrite orb_true_iff, !bool_decide_eq_true, elem_of_cons. tauto.
    + intros r. apply andb_false_iff.
      destruct (decide (rowDate r = d)) as [E|E].
      * right. apply bool_decide_eq_false_2. intros [_ H]. congruence.
      * left. apply bool_decide_eq_false_2. tauto.
Qed.

Lemma allDates_prefix rows i d r :
  allDates rows !! i = Some d -> r ∈ rows ->
  rowDate r ∈ take (S i) (allDates rows)
  <-> (JS.compareStrings (rowDate r) d <= 0)%Z.
Proof.
  intros Hi Hr. split; [now apply allDates_prefix_le|].
  intros Hle.
  assert (Hin : rowDate r ∈ allDates rows)
    by (apply allDates_elem_of; eauto).
  apply list_elem_of_lookup_1 in Hin as [j Hj].
  apply elem_of_take. exists j. split; [assumption|].
  destruct (decide (j < S i)) as [|Hge]; [assumption|].
  assert (Hij : i < j) by lia.
  pose proof (allDates_ascending rows i j _ _ Hij Hi Hj) as Hlt.
  rewrite compareStrings_antisym in Hlt. lia.
Qed.

(** The cumulative map after the first [i + 1] dates holds, for every item
    of the rows, the number of its rows up to the date at position [i]. *)
Lemma cumulative_value rows i d r :
  allDates rows !! i = Some d -> r ∈ rows ->
  JSMap.get (itemId r)
    (cumulativeAfter (episodeDailyMap rows)
       (initialCumulative (allEpisodeIds rows)) (take (S i) (allDates rows)))
  = Some (downloadsUpTo (itemId r) d rows).
Proof.
  intros Hi Hr.
  rewrite (cumulativeAfter_get rows _ _ _ 0 (initialCumulative_row rows r Hr)).
  rewrite sum_downloadsOn.
  - cbn [Nat.add]. unfold downloadsUpTo. do 2 f_equal.
    apply List.filter_ext_in. intros r' Hr'.
    apply list_elem_of_In in Hr'. apply eq_true_iff_eq.
    rewrite !bool_decide_eq_true.
    now rewrite (allDates_prefix rows i d r' Hi Hr').
  - eapply sublist_NoDup; [apply allDates_NoDup | apply sublist_take].
Qed.

Example timeSeries_unsorted_rows :
  timeSeries
    [ sampleRow "2024-01-03T08:00:00Z" (Some "A") None None;
      sampleRow "2024-01-01T08:00:00Z" (Some "B") None None;
      sampleRow "2024-01-03T09:00:00Z" (Some "B") None None;
      sampleRow "2024-01-01T10:00:00Z" (Some "B") None None ]
  = [ {[ "date" := Str "2024-01-01"; "A" := Num 0; "B" := Num 2 ]};
      {[ "date" := Str "2024-01-03"; "A" := Num 1; "B" := Num 3 ]} ].
Proof. vm_compute. reflexivity. Qed.

(** X15: when no row's item is the string "date", the [date] fields of the
    points of [downloadsOverTime] are, in order, the distinct dates of the
    rows (the part of [time] before the first "T") in strictly ascending
    code-unit order: one point per date. *)
Theorem X15_points_are_the_row_dates_ascending
    (getTime : string -> option Z) (clock : Clock)
    (titles : list (string * string)) (rows : list DownloadRow) :
  (forall r, r ∈ rows -> itemId r <> "date") ->
  exists dates,
    (fun p : gmap string Value => p !! "date")
      <$> downloadsOverTime (aggregate getTime clock titles rows)
    = (fun d => Some (Str d)) <$> dates /\
    (forall d, d ∈ dates <-> exists r, r ∈ rows /\ rowDate r = d) /\
    (forall i j di dj, i < j -> dates !! i = Some di -> dates !! j = Some dj ->
       (JS.compareStrings di dj < 0)%Z).
Proof.
  intros Hdate. exists (allDates rows).
  split; [|split; [apply allDates_elem_of | apply allDates_ascending]].
  cbn [aggregate downloadsOverTime]. apply list_eq. intros i.
  rewrite !list_lookup_fmap. unfold timeSeries. rewrite buildPoints_lookup.
  destruct (allDates rows !! i) as [d|] eqn:Hd; [|reflexivity].
  cbn [fmap option_fmap option_map]. f_equal.
  rewrite dataPoint_lookup
    by (discriminate || apply cumulativeAfter_NoDup, initialCumulative_NoDup).
  destruct (JSMap.get "date" _) as [v|] eqn:E; [|reflexivity].
  assert (Hsome : exists r, r ∈ rows /\ itemId r = "date").
  { apply (cumulative_keys rows (take (S i) (allDates rows))).
    - intros d' Hd'. apply elem_of_take in Hd' as (j & Hj & _).
      eapply list_elem_of_lookup_2; eauto.
    - rewrite E. eauto. }
  destruct Hsome as (r & Hr & Hid). now elim (Hdate r Hr).
Qed.

Lemma X15_points_are_the_row_dates_ascending_witness :
  let rows :=
    [ sampleRow "2024-01-03T08:00:00Z" (Some "A") None None;
      sampleRow "2024-01-01T08:00:00Z" (Some "B") None None;
      sampleRow "2024-01-03T09:00:00Z" (Some "B") None None ] in
  exists dates,
    (fun p : gmap string Value => p !! "date")
      <$> downloadsOverTime (aggregate sampleGetTime sampleClock [] rows)
    = (fun d => Some (Str d)) <$> dates /\
    (forall d, d ∈ dates <-> exists r, r ∈ rows /\ rowDate r = d) /\
    (forall i j di dj, i < j -> dates !! i = Some di -> dates !! j = Some dj ->
       (JS.compareStrings di dj < 0)%Z).
Proof.
  intros rows.
  apply (X15_points_are_the_row_dates_ascending sampleGetTime sampleClock []
           rows).
  intros r Hr.
  repeat (apply elem_of_cons in Hr as [->|Hr]; [discriminate|]).
  now apply elem_of_nil in Hr.
Defined.

(** X16: the keys of a point of [downloadsOverTime] are "date" and the
    items of the rows other than "__proto__", nothing else. *)
Theorem X16_point_keys
    (getTime : string -> option Z) (clock : Clock)
    (titles : list (string * string)) (rows : list DownloadRow)
    (p : gmap string Value) (k : string) :
  p ∈ downloadsOverTime (aggregate getTime clock titles rows) ->
  is_Some (p !! k) <->
  k = "date" \/ (k <> "__proto__" /\ exists r, r ∈ rows /\ itemId r = k).
Proof.
  cbn [aggregate downloadsOverTime]. intros Hp.
  apply list_elem_of_lookup_1 in Hp as [i Hi].
  destruct (timeSeries_point rows i p Hi) as (d & c & Hd & Hc & Hnd & ->).
  destruct (decide (k = "__proto__")) as [->|Hk].
  { rewrite dataPoint_proto. split; [intros [? [=]]|].
    intros [[=]|[H _]]. now elim H. }
  rewrite dataPoint_lookup by assumption.
  assert (Hkeys : is_Some (JSMap.get k c)
                  <-> exists r, r ∈ rows /\ itemId r = k).
  { rewrite Hc. apply cumulative_keys.
    intros d' Hd'. apply elem_of_take in Hd' as (j & Hj & _).
    eapply list_elem_of_lookup_2; eauto. }
  destruct (JSMap.get k c) as [v|].
  - split; [intros _; right; split; [exact Hk | apply Hkeys; eauto] | eauto].
  - destruct (decide (k = "date")) as [->|Hne].
    + split; [now left | eauto].
    + split; [intros [? [=]]|].
      intros [?|[_ H]]; [contradiction|]. apply Hkeys in H. now destruct H.
Qed.

Lemma X16_point_keys_witness :
  let rows :=
    [ sampleRow "2024-01-01T08:00:00Z" (Some "A") None None;
      sampleRow "2024-01-02T08:00:00Z" (Some "__proto__") None None ] in
  let p : gmap string Value :=
    {[ "date" := Str "2024-01-01"; "A" := Num 1 ]} in
  downloadsOverTime (aggregate sampleGetTime sampleClock [] rows) !! 0
    = Some p /\
  is_Some (p !! "A") /\ p !! "__proto__" = None /\ p !! "C" = None.
Proof.
  intros rows p.
  assert (Hp : p ∈ downloadsOverTime
                     (aggregate sampleGetTime sampleClock [] rows)) by left.
  split; [vm_compute; reflexivity|]. split; [|split].
  - apply (proj2 (X16_point_keys sampleGetTime sampleClock [] rows p "A" Hp)).
    right. split; [discriminate|]. eexists. split; [left|reflexivity].
  - destruct (p !! "__proto__") eqn:E; [|reflexivity]. exfalso.
    destruct (proj1 (X16_point_keys sampleGetTime sampleClock [] rows p
                       "__proto__" Hp) (ex_intro _ _ E)) as [H|[H _]];
      [discriminate H | now elim H].
  - destruct (p !! "C") eqn:E; [|reflexivity]. exfalso.
    destruct (proj1 (X16_point_keys sampleGetTime sampleClock [] rows p
                       "C" Hp) (ex_intro _ _ E)) as [H|(_ & r & Hr & Hid)];
      [discriminate H|].
    repeat (apply elem_of_cons in Hr as [->|Hr]; [discriminate Hid|]).
    now apply elem_of_nil in Hr.
Defined.

(** X17: in the point of a date [d], the value of an item other than
    "__proto__" is the number of rows of that item whose date is [d] or
    earlier. *)
Theorem X17_point_value_counts_rows_up_to_date
    (getTime : string -> option Z) (clock : Clock)
    (titles : list (string * string)) (rows : list DownloadRow)
    (r : DownloadRow) (p : gmap string Value) (d : string) :
  r ∈ rows ->
  itemId r <> "__proto__" ->
  p ∈ downloadsOverTime (aggregate getTime clock titles rows) ->
  p !! "date" = Some (Str d) ->
  p !! itemId r = Some (Num (downloadsUpTo (itemId r) d rows)).
Proof.
  cbn [aggregate downloadsOverTime]. intros Hr Hid Hp Hdate.
  apply list_elem_of_lookup_1 in Hp as [i Hi].
  destruct (timeSeries_point rows i p Hi) as (d' & c & Hd & Hc & Hnd & ->).
  apply dataPoint_date in Hdate; [subst d'|assumption].
  rewrite dataPoint_lookup by assumption.
  now rewrite Hc, (cumulative_value rows i d r Hd Hr).
Qed.

Lemma X17_point_value_counts_rows_up_to_date_witness :
  let rows :=
    [ sampleRow "2024-01-03T08:00:00Z" (Some "A") None None;
      sampleRow "2024-01-01T08:00:00Z" (Some "B") None None;
      sampleRow "2024-01-03T09:00:00Z" (Some "B") None None;
      sampleRow "2024-01-01T10:00:00Z" (Some "B") None None ] in
  let p : gmap string Value :=
    {[ "date" := Str "2024-01-01"; "A" := Num 0; "B" := Num 2 ]} in
  downloadsOverTime (aggregate sampleGetTime sampleClock [] rows) !! 0
    = Some p /\
  p !! "B" = Some (Num (downloadsUpTo "B" "2024-01-01" rows)).
Proof.
  intros rows p. split; [vm_compute; reflexivity|].
  refine (X17_point_value_counts_rows_up_to_date sampleGetTime sampleClock []
            rows (sampleRow "2024-01-01T08:00:00Z" (Some "B") None None)
            p "2024-01-01" _ _ _ _).
  - right. left.
  - discriminate.
  - left.
  - reflexivity.
Defined.

Lemma episodeStats_item getTime clock titles rows e :
  e ∈ episodeStats (aggregate getTime clock titles rows) ->
  exists r, r ∈ rows /\ itemId r = EpisodeStat.episodeId e.
Proof.
  intros He.
  assert (Hin : EpisodeStat.episodeId e
                ∈ EpisodeStat.episodeId
                  <$> episodeStats (aggregate getTime clock titles rows))
    by now apply list_elem_of_fmap_2.
  rewrite episodeStats_ids in Hin.
  destruct (episodeMap_keys rows) as (_ & Hmem & _).
  apply Hmem, firstIndex_Some_elem in Hin as (r & Hr & [= Hid]). eauto.
Qed.

(** X18: the last point of [downloadsOverTime] shows, for every entry of
    [episodeStats] whose id is not "__proto__", the entry's [downloads]: the
    chart ends at the totals of the ranking. *)
Theorem X18_last_point_shows_episode_totals
    (getTime : string -> option Z) (clock : Clock)
    (titles : list (string * string)) (rows : list DownloadRow)
    (p : gmap string Value) (e : EpisodeStat.t) :
  last (downloadsOverTime (aggregate getTime clock titles rows)) = Some p ->
  e ∈ episodeStats (aggregate getTime clock titles rows) ->
  EpisodeStat.episodeId e <> "__proto__" ->
  p !! EpisodeStat.episodeId e = Some (Num (EpisodeStat.downloads e)).
Proof.
  intros Hlast He Hproto.
  destruct (episodeStats_item _ _ _ _ e He) as (r & Hr & Hid).
  destruct (episodeStats_entry _ _ _ _ e He) as (id & stats & Hg & ->).
  cbn [episodeEntry EpisodeStat.downloads EpisodeStat.episodeId fst snd] in *.
  pose proof (episodeMap_stats rows id) as Hs. cbn zeta in Hs.
  rewrite Hg, default_Some in Hs. destruct Hs as (-> & _).
  cbn [aggregate downloadsOverTime] in Hlast. rewrite last_lookup in Hlast.
  set (i := pred (length (timeSeries rows))) in *.
  destruct (timeSeries_point rows i p Hlast) as (d & c & Hd & Hc & Hnd & ->).
  rewrite dataPoint_lookup by assumption.
  rewrite Hc, <- Hid, (cumulative_value rows i d r Hd Hr).
  do 2 f_equal. unfold downloadsUpTo, occurrences. f_equal.
  apply List.filter_ext_in. intros r' Hr'. apply list_elem_of_In in Hr'.
  apply eq_true_iff_eq. rewrite !bool_decide_eq_true.
  assert (Hle : (JS.compareStrings (rowDate r') d <= 0)%Z).
  { apply (allDates_prefix_le rows i d (rowDate r') Hd).
    rewrite take_ge.
    - apply allDates_elem_of. eauto.
    - unfold i. rewrite timeSeries_length. lia. }
  split; [intros [-> _]; reflexivity | intros [= ->]; auto].
Qed.

Lemma X18_last_point_shows_episode_totals_witness :
  let rows :=
    [ sampleRow "2024-01-03T08:00:00Z" (Some "A") None None;
      sampleRow "2024-01-01T08:00:00Z" (Some "B") None None;
      sampleRow "2024-01-03T09:00:00Z" (Some "B") None None ] in
  let p : gmap string Value :=
    {[ "date" := Str "2024-01-03"; "A" := Num 1; "B" := Num 2 ]} in
  let e := EpisodeStat.mk "B" "B" 2 0 in
  p !! EpisodeStat.episodeId e = Some (Num (EpisodeStat.downloads e)).
Proof.
  intros rows p e.
  refine (X18_last_point_shows_episode_totals sampleGetTime sampleClock []
            rows p e _ _ _).
  - vm_compute. reflexivity.
  - left.
  - discriminate.
Defined.

(** X25: the item of every row (its [episodeId], or else its [url]) other
    than "__proto__" is a key of every point of [downloadsOverTime], with a
    number as its value; in a point whose date precedes the dates of all
    rows of that item the value is 0. *)
Theorem X25_other_items_in_every_point
    (getTime : string -> option Z) (clock : Clock)
    (titles : list (string * string)) (rows : list DownloadRow)
    (r : DownloadRow) (p : gmap string Value) :
  r ∈ rows ->
  itemId r <> "__proto__" ->
  p ∈ downloadsOverTime (aggregate getTime clock titles rows) ->
  (exists n, p !! itemId r = Some (Num n)) /\
  (forall d, p !! "date" = Some (Str d) ->
     (forall r', r' ∈ rows -> itemId r' = itemId r ->
        (JS.compareStrings d (rowDate r') < 0)%Z) ->
     p !! itemId r = Some (Num 0)).
Proof.
  cbn [aggregate downloadsOverTime]. apply item_in_every_point.
Qed.

Lemma X25_other_items_in_every_point_witness :
  let rows :=
    [ sampleRow "2024-01-01T08:00:00Z" (Some "A") None None;
      sampleRow "2024-01-02T08:00:00Z" (Some "B") None None ] in
  let p : gmap string Value :=
    {[ "date" := Str "2024-01-01"; "A" := Num 1; "B" := Num 0 ]} in
  downloadsOverTime (aggregate sampleGetTime sampleClock [] rows) !! 0
    = Some p /\
  (exists n, p !! "B" = Some (Num n)) /\
  p !! "B" = Some (Num 0).
Proof.
  intros rows p. split; [vm_compute; reflexivity|].
  assert (Hr : sampleRow "2024-01-02T08:00:00Z" (Some "B") None None ∈ rows)
    by (right; left).
  assert (Hp : p ∈ downloadsOverTime
                     (aggregate sampleGetTime sampleClock [] rows))
    by left.
  destruct (X25_other_items_in_every_point sampleGetTime sampleClock [] rows
              _ p Hr ltac:(discriminate) Hp) as [Hkey Hzero].
  split; [exact Hkey|].
  apply (Hzero "2024-01-01"); [reflexivity|].
  intros r' Hr' Hid.
  apply elem_of_cons in Hr' as [->|Hr']; [discriminate Hid|].
  apply list_elem_of_singleton in Hr' as ->. reflexivity.
Defined.

(* ====================================================================== *)
(** ** Further results: the analytics panel *)
(* ====================================================================== *)

Lemma lines_dataKeys (a : OP3Analytics) :
  Chart.dataKey <$> Chart.lines a
  = EpisodeStat.episodeId <$> take 6 (episodeStats a).
Proof.
  unfold Chart.lines, JSArray.slice0. apply list_eq. intros i.
  rewrite !list_lookup_fmap, list_lookup_imap.
  now destruct (take 6 (episodeStats a) !! i).
Qed.

(** X19: the chart draws at most six lines, one per leading entry of
    [episodeStats] and no two for the same episode; every line has a colour
    of the palette, and its [dataKey] has a number in every point of
    [downloadsOverTime], so the line has no gap, unless the [dataKey] is
    "__proto__": that line has a value in no point. *)
Theorem X19_chart_lines_have_data
    (getTime : string -> option Z) (clock : Clock)
    (titles : list (string * string)) (rows : list DownloadRow) :
  let a := aggregate getTime clock titles rows in
  length (Chart.lines a) = min 6 (length (episodeStats a)) /\
  NoDup (Chart.dataKey <$> Chart.lines a) /\
  (forall l, l ∈ Chart.lines a ->
     (exists colour, Chart.stroke l = Some colour /\
                     colour ∈ Chart.CHART_COLORS) /\
     forall p, p ∈ downloadsOverTime a ->
       if decide (Chart.dataKey l = "__proto__")
       then p !! Chart.dataKey l = None
       else exists n, p !! Chart.dataKey l = Some (Num n)).
Proof.
  cbn zeta. split; [|split].
  - unfold Chart.lines, JSArray.slice0. now rewrite length_imap, length_take.
  - rewrite lines_dataKeys, fmap_take.
    eapply sublist_NoDup; [|apply sublist_take].
    rewrite episodeStats_ids. apply episodeMap_keys.
  - intros l Hl. unfold Chart.lines in Hl.
    apply elem_of_lookup_imap in Hl as (i & e & -> & Hi).
    cbn [Chart.stroke Chart.dataKey]. split.
    + assert (Hlt : i mod length Chart.CHART_COLORS
                    < length Chart.CHART_COLORS)
        by (apply Nat.mod_upper_bound; discriminate).
      apply lookup_lt_is_Some_2 in Hlt as [colour Hc].
      exists colour. split; [exact Hc|].
      eapply list_elem_of_lookup_2; eauto.
    + intros p Hp. unfold JSArray.slice0 in Hi.
      apply lookup_take_Some in Hi as [Hi _].
      apply list_elem_of_lookup_2 in Hi.
      destruct (episodeStats_item _ _ _ _ e Hi) as (r & Hr & <-).
      cbn [aggregate downloadsOverTime] in Hp.
      destruct (decide (itemId r = "__proto__")) as [Hproto|Hproto].
      * rewrite Hproto. apply list_elem_of_lookup_1 in Hp as [j Hj].
        destruct (timeSeries_point rows j p Hj) as (d & c & _ & _ & _ & ->).
        apply dataPoint_proto.
      * now apply (item_in_every_point rows r p Hr Hproto).
Qed.

Lemma NoDup_fmap_inj_on {A B} (f : A -> B) (l : list A) x y :
  NoDup (f <$> l) -> x ∈ l -> y ∈ l -> f x = f y -> x = y.
Proof.
  induction l as [|z l IH]; cbn; intros Hnd Hx Hy Hf.
  - now apply elem_of_nil in Hx.
  - apply NoDup_cons in Hnd as [Hz Hnd].
    apply elem_of_cons in Hx as [->|Hx]; apply elem_of_cons in Hy as [->|Hy].
    + reflexivity.
    + elim Hz. rewrite Hf. now apply list_elem_of_fmap_2.
    + elim Hz. rewrite <- Hf. now apply list_elem_of_fmap_2.
    + auto.
Qed.

(** X20: for the series of an entry of [episodeStats], the tooltip shows
    the entry's label: the episode title when the show response has one, the
    id otherwise. *)
Theorem X20_tooltip_shows_label
    (getTime : string -> option Z) (clock : Clock)
    (titles : list (string * string)) (rows : list DownloadRow)
    (e : EpisodeStat.t) :
  e ∈ episodeStats (aggregate getTime clock titles rows) ->
  Chart.tooltipName (aggregate getTime clock titles rows)
    (EpisodeStat.episodeId e)
  = EpisodeStat.url e.
Proof.
  intros He. unfold Chart.tooltipName.
  destruct (List.find _ _) as [ep|] eqn:Hfind.
  - apply List.find_some in Hfind as [Hin Heq].
    apply list_elem_of_In in Hin. apply String.eqb_eq in Heq.
    assert (ep = e) as ->.
    { apply (NoDup_fmap_inj_on EpisodeStat.episodeId
               (episodeStats (aggregate getTime clock titles rows)));
        [|assumption..].
      rewrite episodeStats_ids. apply episodeMap_keys. }
    destruct (JS.truthy (EpisodeStat.url e)) eqn:Ht; [reflexivity|].
    destruct (episodeStats_entry _ _ _ _ e He) as (id & stats & _ & ->).
    cbn [episodeEntry EpisodeStat.url EpisodeStat.episodeId fst] in *.
    destruct (JSMap.get id titles) as [t|]; [|reflexivity].
    destruct (JS.truthy t) eqn:Ht'; [congruence | reflexivity].
  - apply List.find_none with (x := e) in Hfind.
    + rewrite String.eqb_refl in Hfind. discriminate.
    + now apply list_elem_of_In.
Qed.

Lemma X20_tooltip_shows_label_witness :
  let episodes := [Episode.mk "A" (Some "Pilot")] in
  let rows := [ sampleRow "2024-03-14T12:00:00Z" (Some "A") None None;
                sampleRow "2024-03-14T12:00:00Z" (Some "B") None None ] in
  let a := aggregate sampleGetTime sampleClock (episodeTitleMap episodes)
             rows in
  Chart.tooltipName a "A" = "Pilot" /\ Chart.tooltipName a "B" = "B".
Proof.
  intros episodes rows a. split.
  - refine (X20_tooltip_shows_label sampleGetTime sampleClock
              (episodeTitleMap episodes) rows
              (EpisodeStat.mk "A" "Pilot" 1 0) _).
    left.
  - refine (X20_tooltip_shows_label sampleGetTime sampleClock
              (episodeTitleMap episodes) rows
              (EpisodeStat.mk "B" "B" 1 0) _).
    right. left.
Defined.

(* ====================================================================== *)
(** ** Further results: availability and the query function *)
(* ====================================================================== *)

Lemma removeDashes_truthy (g : string) :
  JS.truthy (Hook.removeDashes g) = true <->
  exists c, c ∈ list_ascii_of_string g /\ c <> "-"%char.
Proof.
  induction g as [|c g IH]; cbn [Hook.removeDashes list_ascii_of_string].
  - split; [discriminate | intros (c & H & _); now apply elem_of_nil in H].
  - destruct (Ascii.eqb c "-") eqn:E.
    + apply Ascii.eqb_eq in E. subst c. rewrite IH. split.
      * intros (c & Hc & Hne). exists c. split; [now right | assumption].
      * intros (c & Hc & Hne).
        apply elem_of_cons in Hc as [->|Hc]; [contradiction | eauto].
    + apply Ascii.eqb_neq in E. split; [|reflexivity].
      intros _. exists c. split; [now left | assumption].
Qed.

Lemma truthyOpt_Some (o : option string) :
  JS.truthyOpt o = true <-> exists s, o = Some s /\ s <> EmptyString.
Proof.
  destruct o as [[|c s]|]; cbn; split; try discriminate.
  - intros (s & [= <-] & H). now elim H.
  - intros _. eexists. split; [reflexivity | discriminate].
  - reflexivity.
  - intros (s & [=] & _).
Qed.

(** X21: [hasCredentials] holds exactly when the API token is a non-empty
    string and the podcast GUID has at least one character other than "-":
    a GUID that is missing, empty or made of dashes only counts as no
    credentials. *)
Theorem X21_hasCredentials_iff
    (podcastMetadata : option Hook.PodcastMetadata) (env : Hook.Env) :
  Hook.hasCredentials (Hook.useOP3Available podcastMetadata env) = true <->
  (exists token, Hook.VITE_OP3_API_TOKEN env = Some token /\
                 token <> EmptyString) /\
  (exists guid, Hook.VITE_PODCAST_GUID env = Some guid /\
                exists c, c ∈ list_ascii_of_string guid /\ c <> "-"%char).
Proof.
  cbn [Hook.useOP3Available Hook.hasCredentials].
  rewrite andb_true_iff, truthyOpt_Some. unfold Hook.showUuid.
  destruct (Hook.VITE_PODCAST_GUID env) as [guid|]; cbn [fmap option_fmap option_map JS.truthyOpt].
  - rewrite removeDashes_truthy. split.
    + intros [Ht Hg]. split; [assumption|]. exists guid. auto.
    + intros [Ht (g & [= <-] & Hg)]. auto.
  - split; [intros [_ [=]] | intros [_ (g & [=] & _)]].
Qed.

(** X22: when the panel reports [isAvailable], the query is enabled and the
    query function does not fail for missing credentials: whatever the
    endpoints answer, its result is an analytics record or the error of the
    show request. *)
Theorem X22_available_query_passes_credentials
    (getTime : string -> option Z) (toISOString : Z -> string)
    (startOfMonth : Z -> Z)
    (fetchShow : string -> string -> Hook.ShowResponse)
    (fetchDownloads :
       string -> string -> string -> string -> DownloadsResponse)
    (podcastMetadata : option Hook.PodcastMetadata) (env : Hook.Env)
    (timeRange : TimeRange) (clock : Clock) :
  Hook.isAvailable (Hook.useOP3Available podcastMetadata env) = true ->
  Hook.enabled podcastMetadata env = true /\
  Hook.queryFn getTime toISOString startOfMonth fetchShow fetchDownloads
    env timeRange clock
  <> inl Hook.CredentialsNotConfigured.
Proof.
  cbn [Hook.useOP3Available Hook.isAvailable]. intros H.
  split; [exact H|].
  apply andb_true_iff in H as [H Hu]. apply andb_true_iff in H as [_ Ht].
  unfold Hook.queryFn. rewrite Ht. cbn [negb orb].
  assert (JS.truthyOpt (Hook.VITE_PODCAST_GUID env) = true) as ->.
  { unfold Hook.showUuid in Hu.
    destruct (Hook.VITE_PODCAST_GUID env) as [[|c g]|]; try discriminate.
    reflexivity. }
  cbn [negb]. now destruct (fetchShow _ _).
Qed.

Lemma X22_available_query_passes_credentials_witness :
  let env := Hook.mkEnv (Some "token")
               (Some "8f3c1a2e-5b7d-4c9a-9e1f-0a2b3c4d5e6f") in
  let md := Some (Hook.mkMetadata (Some true)) in
  Hook.showUuid env = Some "8f3c1a2e5b7d4c9a9e1f0a2b3c4d5e6f" /\
  Hook.enabled md env = true /\
  Hook.queryFn sampleGetTime (fun _ => "2024-03-15T12:00:00.000Z")
    (fun t => t) (fun _ _ => Hook.ShowNotOk 404 "not found")
    (fun _ _ _ _ => NotOk) env Range30d sampleClock
  <> inl Hook.CredentialsNotConfigured.
Proof.
  intros env md. split; [reflexivity|].
  exact (X22_available_query_passes_credentials sampleGetTime
           (fun _ => "2024-03-15T12:00:00.000Z") (fun t => t)
           (fun _ _ => Hook.ShowNotOk 404 "not found")
           (fun _ _ _ _ => NotOk) md env Range30d sampleClock eq_refl).
Defined.

(* ====================================================================== *)
(** ** Further results: the upload mutation *)
(* ====================================================================== *)

(** X23: without a user the mutation fails and hands nothing to the
    uploader; with a user it hands the uploader exactly one file, which has
    the name and the bytes of the chosen file, and a failure of the uploader
    is reported with the prefix "Upload failed: ". *)
Theorem X23_upload_sends_same_name_and_bytes
    {User : Type}
    (upload : User -> Mime.File -> option string + list (list string))
    (now : Z) (user : option User) (file : Mime.File) :
  (user = None ->
   Upload.mutationFn upload now user file
   = ([], Upload.Failed "Must be logged in to upload files")) /\
  (forall u, user = Some u ->
     exists sent,
       (Upload.mutationFn upload now user file).1 = [sent] /\
       Mime.name sent = Mime.name file /\
       Mime.bytes sent = Mime.bytes file /\
       (Upload.mutationFn upload now user file).2
       = match upload u sent with
         | inr tags => Upload.Uploaded tags
         | inl error =>
             Upload.Failed
               ("Upload failed: " +:+ default "Unknown error" error)
         end).
Proof.
  split; [now intros ->|].
  intros u ->. exists (Mime.ensureCorrectMimeType now file).
  unfold Upload.mutationFn.
  assert (Hframe : Mime.name (Mime.ensureCorrectMimeType now file)
                   = Mime.name file /\
                   Mime.bytes (Mime.ensureCorrectMimeType now file)
                   = Mime.bytes file).
  { destruct (ensureCorrectMimeType_cases now file) as [->|(t & -> & _)];
      now split. }
  destruct Hframe as [Hn Hb].
  destruct (upload u (Mime.ensureCorrectMimeType now file)); auto.
Qed.
(* ====================================================================== *)
(** ** Further results: shares *)
(* ====================================================================== *)

Lemma ranked_share prop rows e :
  e ∈ ranked prop rows ->
  CategoryStat.percentage e
  = percentageOf (CategoryStat.count e) (length rows) /\
  0 < CategoryStat.count e <= length rows /\
  (0 < exactShare (CategoryStat.count e) (length rows))%Q /\
  (exactShare (CategoryStat.count e) (length rows) <= 100)%Q.
Proof.
  intros He. destruct (ranked_entry prop rows e He) as (Hc & Hpos & Hp).
  assert (Hle : CategoryStat.count e <= length rows).
  { rewrite Hc. unfold occurrences. apply List.filter_length_le. }
  split; [exact Hp|]. split; [lia|]. split.
  - apply exactShare_pos; lia.
  - rewrite <- (exactShare_all (length rows)) by lia.
    now apply exactShare_mono.
Qed.

(** X24: every entry of [topCountries], [topApps] and [topDevices] has a
    count between 1 and [totalDownloads], so that no entry is ever computed
    with a zero total; its percentage is the binary64 value of
    [(count / totalDownloads) * 100] for that count, and the exact share
    [100 * count / totalDownloads] is above 0 and at most 100. *)
Theorem X24_entry_share
    (getTime : string -> option Z) (clock : Clock)
    (titles : list (string * string)) (rows : list DownloadRow)
    (e : CategoryStat.t) :
  let r := aggregate getTime clock titles rows in
  e ∈ topCountries r \/ e ∈ topApps r \/ e ∈ topDevices r ->
  CategoryStat.percentage e
  = percentageOf (CategoryStat.count e) (totalDownloads r) /\
  0 < CategoryStat.count e <= totalDownloads r /\
  (0 < exactShare (CategoryStat.count e) (totalDownloads r))%Q /\
  (exactShare (CategoryStat.count e) (totalDownloads r) <= 100)%Q.
Proof.
  cbn zeta. cbn [aggregate topCountries topApps topDevices totalDownloads].
  unfold JSArray.slice0. intros [H|[H|H]].
  - apply elem_of_take in H as (i & Hi & _).
    apply list_elem_of_lookup_2 in Hi. now apply (ranked_share countryCode).
  - apply elem_of_take in H as (i & Hi & _).
    apply list_elem_of_lookup_2 in Hi. now apply (ranked_share agentName).
  - now apply (ranked_share deviceType).
Qed.

Lemma X24_entry_share_witness :
  let rows := [ sampleRow "2024-03-14T12:00:00Z" None (Some "US") None;
                sampleRow "2024-03-14T12:00:00Z" None (Some "US") None;
                sampleRow "2024-03-14T12:00:00Z" None (Some "CA") None;
                sampleRow "2024-03-14T12:00:00Z" None None None ] in
  let e := CategoryStat.mk "US" 2 50%float in
  topCountries (aggregate sampleGetTime sampleClock [] rows) !! 0 = Some e /\
  CategoryStat.percentage e = percentageOf 2 4 /\
  0 < CategoryStat.count e <= 4.
Proof.
  intros rows e. split; [reflexivity|].
  destruct (X24_entry_share sampleGetTime sampleClock [] rows e)
    as (Hp & Hc & _).
  - left. left.
  - split; [exact Hp | exact Hc].
Defined.
